(** * komodo-actions: the GitHub Action entry point [src/main.ts]

    A shallow embedding of [hasOid], [writeStepSummary], [executeOne] and
    [run], and the properties the specification states about them.

    The action talks to three collaborators that are not part of the
    repository: the runner toolkit ([core.getInput], [core.info],
    [core.setOutput], [core.setFailed]), the Komodo client
    ([execute_and_poll]) and the file system ([writeFile]).  What they
    answer is a parameter of the development (the record [World]); what the
    action asks of them is recorded, in order, in a trace of [event]s. *)

From Stdlib Require Import String Ascii List Bool NArith Lia Permutation.
Import ListNotations.
Open Scope string_scope.
Set Warnings "-register-all".

(* ------------------------------------------------------------------ *)
(** ** JavaScript values *)

(** The values the action handles: what [JSON.parse] gives back, the fields
    of the records the client resolves with, the payloads sent to it and the
    values handed to [core.setOutput].  A number is carried as its decimal
    rendering, the only thing the action ever does with one.  An object is
    the list of its own properties in creation order. *)
Inductive jsval : Type :=
| JUndefined
| JNull
| JBool (b : bool)
| JNum (rendering : string)
| JStr (s : string)
| JArr (elems : list jsval)
| JObj (props : list (string * jsval)).

(** An object: own properties, creation order, no key twice. *)
Definition obj : Type := list (string * jsval).

(** [UpdateItem]: either member of the union is an object. *)
Definition UpdateItem : Type := obj.

(** [UpdateResult = UpdateItem | UpdateItem[]]. *)
Inductive UpdateResult : Type :=
| One (item : UpdateItem)
| Many (items : list UpdateItem).

(** What a [throw] or a rejected promise carries: an [Error] instance
    (with its [message]) or any other value. *)
Inductive thrown : Type :=
| ErrorObj (message : string)
| NonError (v : jsval).

(** How an awaited call settles. *)
Inductive settled (A : Type) : Type :=
| Resolved (a : A)
| Rejected (t : thrown).
Arguments Resolved {A} a.
Arguments Rejected {A} t.

(** The handle [KomodoClient(url, {type: 'api-key', params: {key, secret}})]
    returns. *)
Record client : Type := KomodoClient {
  client_url : string;
  client_key : string;
  client_secret : string
}.

(** What the action does to the outside, in the order it does it. *)
Inductive event : Type :=
| Info (message : string)
| SetOutput (name : string) (value : jsval)
| SetFailed (message : string)
| Execute (c : client) (operation : string) (payload : jsval)
| Settle (outcome : settled UpdateResult)
| WriteFile (path : string) (data : string) (flag : string).

(** The collaborators.  [core.getInput] reads the raw value the runner holds
    for an input, tests it when the input is required, and hands it over
    with the surrounding white space removed: [supplied] tells whether the
    raw value is non-empty and [inputs] is the value handed over (the empty
    string for an input that was not supplied, or supplied blank).  [env]
    is [process.env], [JSON_parse] is the built-in, [execute_and_poll] is
    the client method (its answer may depend on everything that happened
    before) and [writeFile] is [node:fs/promises.writeFile], [None] when the
    write goes through. *)
Record World : Type := {
  supplied : string -> bool;
  inputs : string -> string;
  env : string -> option string;
  JSON_parse : string -> settled jsval;
  execute_and_poll : list event -> client -> string -> jsval -> settled UpdateResult;
  writeFile : string -> string -> string -> option thrown
}.

(* ------------------------------------------------------------------ *)
(** ** Operations of the language the source relies on *)

Definition nl : string := String (ascii_of_nat 10) EmptyString.

(** Truthiness of a string, and of a string that may be [undefined]. *)
Definition truthy (s : string) : bool := negb (s =? "").

Definition truthy_opt (o : option string) : bool :=
  match o with
  | Some s => truthy s
  | None => false
  end.

(** [a || b] where [a] is a string and [b] a string or [undefined]. *)
Definition or_else (a : string) (b : option string) : option string :=
  if truthy a then Some a else b.

(** [ToString], as a template literal applies it.  An array renders as its
    elements joined by a comma, [null] and [undefined] elements as nothing. *)
Fixpoint ToString (v : jsval) : string :=
  match v with
  | JUndefined => "undefined"
  | JNull => "null"
  | JBool true => "true"
  | JBool false => "false"
  | JNum r => r
  | JStr s => s
  | JArr l =>
      (fix elems (l : list jsval) : string :=
         match l with
         | [] => ""
         | x :: rest =>
             let sx := match x with
                       | JUndefined | JNull => ""
                       | _ => ToString x
                       end in
             match rest with
             | [] => sx
             | _ :: _ => sx ++ "," ++ elems rest
             end
         end) l
  | JObj _ => "[object Object]"
  end.

(** [Array.prototype.join]. *)
Fixpoint join (sep : string) (l : list jsval) : string :=
  match l with
  | [] => ""
  | x :: rest =>
      let sx := match x with
                | JUndefined | JNull => ""
                | _ => ToString x
                end in
      match rest with
      | [] => sx
      | _ :: _ => sx ++ sep ++ join sep rest
      end
  end.

(** [Array.isArray]. *)
Definition Array_isArray (v : jsval) : bool :=
  match v with
  | JArr _ => true
  | _ => false
  end.

(** [k in o] for an object [o] built by a literal or by the client. *)
Fixpoint has_prop (o : obj) (k : string) : bool :=
  match o with
  | [] => false
  | (k', _) :: rest => (k' =? k) || has_prop rest k
  end.

(** [o[k]] read on an object: [undefined] when there is no such property. *)
Fixpoint get_prop (o : obj) (k : string) : jsval :=
  match o with
  | [] => JUndefined
  | (k', v) :: rest => if k' =? k then v else get_prop rest k
  end.

(** [v?.k]: nothing is read off [undefined] or [null]; an object answers
    with its property; a primitive or an array has no property of the names
    used here. *)
Definition opt_chain (v : jsval) (k : string) : jsval :=
  match v with
  | JObj o => get_prop o k
  | _ => JUndefined
  end.

(** [typeof v === 'string']. *)
Definition is_string (v : jsval) : bool :=
  match v with
  | JStr _ => true
  | _ => false
  end.

(** [o[k] = v] on an object created by [{}]: the value of an existing
    property is replaced where it stands, a new property goes last.  The
    name [__proto__] is the prototype accessor: assigning to it creates no
    property. *)
Fixpoint put_prop (o : obj) (k : string) (v : jsval) : obj :=
  match o with
  | [] => [(k, v)]
  | (k', v') :: rest =>
      if k' =? k then (k', v) :: rest else (k', v') :: put_prop rest k v
  end.

Definition set_prop (o : obj) (k : string) (v : jsval) : obj :=
  if k =? "__proto__" then o else put_prop o k v.

(** Array indices (canonical decimal numerals below 2^32 - 1) come first in
    the key order of an object, in ascending order. *)
Definition digit_val (c : ascii) : option N :=
  let n := N_of_ascii c in
  if (48 <=? n)%N && (n <=? 57)%N then Some (n - 48)%N else None.

Fixpoint parse_digits (s : string) (acc : N) : option N :=
  match s with
  | EmptyString => Some acc
  | String c r =>
      match digit_val c with
      | Some d => parse_digits r (10 * acc + d)%N
      | None => None
      end
  end.

Definition array_index (k : string) : option N :=
  match k with
  | EmptyString => None
  | String c r =>
      if (c =? "0")%char && negb (r =? "") then None
      else match parse_digits k 0%N with
           | Some n => if (n <? 4294967295)%N then Some n else None
           | None => None
           end
  end.

Fixpoint insert_index (e : N * (string * jsval)) (l : list (N * (string * jsval)))
  : list (N * (string * jsval)) :=
  match l with
  | [] => [e]
  | e' :: rest =>
      if (fst e <=? fst e')%N then e :: l else e' :: insert_index e rest
  end.

Fixpoint index_props (o : obj) : list (N * (string * jsval)) :=
  match o with
  | [] => []
  | (k, v) :: rest =>
      match array_index k with
      | Some n => insert_index (n, (k, v)) (index_props rest)
      | None => index_props rest
      end
  end.

Fixpoint named_props (o : obj) : obj :=
  match o with
  | [] => []
  | (k, v) :: rest =>
      match array_index k with
      | Some _ => named_props rest
      | None => (k, v) :: named_props rest
      end
  end.

(** [Object.entries]. *)
Definition Object_entries (o : obj) : list (string * jsval) :=
  (map snd (index_props o) ++ named_props o)%list.

(* ------------------------------------------------------------------ *)
(** ** Control flow: a trace of events, and exceptions *)

(** A statement either completes with a value or throws; either way it
    has extended the trace. *)
Inductive completion (A : Type) : Type :=
| Normal (a : A)
| Throw (t : thrown).
Arguments Normal {A} a.
Arguments Throw {A} t.

Definition M (A : Type) : Type := list event -> completion A * list event.

Definition ret {A} (a : A) : M A := fun tr => (Normal a, tr).

Definition throw {A} (t : thrown) : M A := fun tr => (Throw t, tr).

Definition bind {A B} (m : M A) (k : A -> M B) : M B :=
  fun tr =>
    match m tr with
    | (Normal a, tr') => k a tr'
    | (Throw t, tr') => (Throw t, tr')
    end.

Definition emit (e : event) : M unit := fun tr => (Normal tt, (tr ++ [e])%list).

(** [await p]: the caller resumes with the value, or the rejection is
    thrown at the [await]. *)
Definition await {A} (s : settled A) : M A :=
  match s with
  | Resolved a => ret a
  | Rejected t => throw t
  end.

Declare Scope js_scope.
Delimit Scope js_scope with js.
Notation "x <- m ;; k" := (bind m (fun x => k))
  (at level 100, m at next level, right associativity) : js_scope.
Notation "m ;; k" := (bind m (fun _ => k))
  (at level 100, right associativity) : js_scope.
Open Scope js_scope.

(* ------------------------------------------------------------------ *)
(** ** The action *)

Section Action.

Variable w : World.

(** [core.getInput(name, {required})]: a required input whose raw value
    is empty throws; otherwise the trimmed value is handed over. *)
Definition getInput (name : string) (required : bool) : M string :=
  if required && negb (supplied w name)
  then throw (ErrorObj ("Input required and not supplied: " ++ name))
  else ret (inputs w name).

Definition info (message : string) : M unit := emit (Info message).

Definition setOutput (name : string) (value : jsval) : M unit :=
  emit (SetOutput name value).

Definition setFailed (message : string) : M unit := emit (SetFailed message).

(** [client.execute_and_poll(operation, payload)], awaited: the call is
    issued, then it settles. *)
Definition call_execute_and_poll (c : client) (operation : string) (payload : jsval)
  : M UpdateResult :=
  fun tr =>
    let issued := (tr ++ [Execute c operation payload])%list in
    let outcome := execute_and_poll w tr c operation payload in
    await outcome (issued ++ [Settle outcome])%list.

(** [patterns.join(', ')] on whatever [JSON.parse] returned: only an array
    has the method, anything else raises a [TypeError] with this message. *)
Definition join_failure (patterns : jsval) : string :=
  match patterns with
  | JNull => "Cannot read properties of null (reading 'join')"
  | JUndefined => "Cannot read properties of undefined (reading 'join')"
  | _ => "patterns.join is not a function"
  end.

Definition patterns_join (patterns : jsval) : M string :=
  match patterns with
  | JArr l => ret (join ", " l)
  | _ => throw (ErrorObj (join_failure patterns))
  end.

(** The elements [for (const name of patterns)] visits. *)
Definition elements (patterns : jsval) : list jsval :=
  match patterns with
  | JArr l => l
  | _ => []
  end.

(** [hasOid]: the item has an [operation] property and [item._id?.$oid] is
    a string. *)
Definition hasOid (item : UpdateItem) : bool :=
  has_prop item "operation" &&
  is_string (opt_chain (get_prop item "_id") "$oid").

(** [update._id.$oid] of an item that passed [hasOid]. *)
Definition oid_of (item : UpdateItem) : string :=
  match opt_chain (get_prop item "_id") "$oid" with
  | JStr s => s
  | v => ToString v
  end.

Definition summary_header : string :=
  "### 📝 Komodo Deployment Summary" ++ nl ++ nl ++
  "| Update ID | Status |" ++ nl ++
  "|-----------|--------|" ++ nl.

Definition summary_row (entry : string * jsval) : string :=
  "| " ++ fst entry ++ " | " ++ ToString (snd entry) ++ " |" ++ nl.

Definition summary_markdown (updateStatusMap : obj) : string :=
  fold_left (fun markdown entry => markdown ++ summary_row entry)
            (Object_entries updateStatusMap) summary_header.

(** [writeStepSummary]. *)
Definition writeStepSummary (updateStatusMap : obj) : M unit :=
  let summaryFile := env w "GITHUB_STEP_SUMMARY" in
  match summaryFile with
  | Some path =>
      if truthy path then
        let markdown := summary_markdown updateStatusMap in
        emit (WriteFile path markdown "a") ;;
        match writeFile w path markdown "a" with
        | None => ret tt
        | Some t => throw t
        end
      else ret tt
  | None => ret tt
  end.

(** [executeOne]. *)
Definition executeOne (c : client) (kind : string) (name : jsval) : M UpdateResult :=
  if kind =? "stack" then
    call_execute_and_poll c "DeployStack" (JObj [("stack", name)])
  else if kind =? "procedure" then
    call_execute_and_poll c "RunProcedure" (JObj [("procedure", name)])
  else throw (ErrorObj ("Unsupported kind: " ++ kind)).

(** [results.push(...result)] or [results.push(result)]. *)
Definition push_result (results : list UpdateItem) (result : UpdateResult)
  : list UpdateItem :=
  match result with
  | Many items => (results ++ items)%list
  | One item => (results ++ [item])%list
  end.

(** The loop [for (const name of patterns) { ... }]. *)
Fixpoint dispatch (c : client) (kind : string) (names : list jsval)
  (results : list UpdateItem) : M (list UpdateItem) :=
  match names with
  | [] => ret results
  | name :: rest =>
      info ("🚀 " ++ kind ++ " → " ++ ToString name) ;;
      result <- executeOne c kind name ;;
      dispatch c kind rest (push_result results result)
  end.

(** [results.filter(hasOid).reduce((acc, update) => { acc[update._id.$oid] =
    update.status; return acc }, {})]. *)
Definition status_step (acc : obj) (update : UpdateItem) : obj :=
  set_prop acc (oid_of update) (get_prop update "status").

Definition updateStatusMap (results : list UpdateItem) : obj :=
  fold_left status_step (filter hasOid results) [].

Definition config_error : string :=
  "Komodo URL / API key / API secret must be provided either via input or env".

Definition sentinel : jsval := JStr "Nothing to update here".

(** The body of the [try] block of [run]. *)
Definition run_body : M unit :=
  kind <- getInput "kind" true ;;
  rawPatterns <- getInput "patterns" true ;;
  dryRunInput <- getInput "dry-run" false ;;
  let dryRun := dryRunInput =? "true" in
  patterns <- await (JSON_parse w rawPatterns) ;;
  (if negb (Array_isArray patterns) || Nat.eqb (List.length (elements patterns)) 0
   then setOutput "updates" sentinel
   else ret tt) ;;
  info ("Kind: " ++ kind) ;;
  targets <- patterns_join patterns ;;
  info ("Targets: " ++ targets) ;;
  if dryRun then
    info "🧪 Dry-run enabled, nothing will be deployed" ;;
    setOutput "updates" (JObj [])
  else
    urlInput <- getInput "komodo-url" false ;;
    let komodoUrl := or_else urlInput (env w "KOMODO_URL") in
    keyInput <- getInput "api-key" false ;;
    let apiKey := or_else keyInput (env w "KOMODO_API_KEY") in
    secretInput <- getInput "api-secret" false ;;
    let apiSecret := or_else secretInput (env w "KOMODO_API_SECRET") in
    match komodoUrl, apiKey, apiSecret with
    | Some url, Some key, Some secret =>
        if truthy url && truthy key && truthy secret then
          let c := KomodoClient url key secret in
          results <- dispatch c kind (elements patterns) [] ;;
          let map := updateStatusMap results in
          setOutput "updates" (JObj map) ;;
          writeStepSummary map
        else setFailed config_error
    | _, _, _ => setFailed config_error
    end.

(** [try { body } catch (err) { handler }]. *)
Definition try_catch (body : M unit) (handler : thrown -> M unit) : M unit :=
  fun tr =>
    match body tr with
    | (Normal a, tr') => (Normal a, tr')
    | (Throw err, tr') => handler err tr'
    end.

(** [if (err instanceof Error) core.setFailed(err.message)]. *)
Definition on_error (err : thrown) : M unit :=
  match err with
  | ErrorObj message => setFailed message
  | NonError _ => ret tt
  end.

(** [run]: everything one run of the action does, in order. *)
Definition run : list event := snd (try_catch run_body on_error []).

End Action.

(* ------------------------------------------------------------------ *)
(** ** What an observer of a run sees *)

(** The remote calls issued, in order. *)
Fixpoint remote_calls (tr : list event) : list (client * string * jsval) :=
  match tr with
  | [] => []
  | Execute c operation payload :: rest => (c, operation, payload) :: remote_calls rest
  | _ :: rest => remote_calls rest
  end.

(** The calls and their settlements, in order. *)
Fixpoint remote_events (tr : list event) : list event :=
  match tr with
  | [] => []
  | Execute c operation payload :: rest => Execute c operation payload :: remote_events rest
  | Settle outcome :: rest => Settle outcome :: remote_events rest
  | _ :: rest => remote_events rest
  end.

(** The raw results the calls resolved with, in order. *)
Fixpoint resolved_results (tr : list event) : list UpdateResult :=
  match tr with
  | [] => []
  | Settle (Resolved r) :: rest => r :: resolved_results rest
  | _ :: rest => resolved_results rest
  end.

(** The successive values given to the output [name]. *)
Fixpoint outputs (name : string) (tr : list event) : list jsval :=
  match tr with
  | [] => []
  | SetOutput name' value :: rest =>
      if name' =? name then value :: outputs name rest else outputs name rest
  | _ :: rest => outputs name rest
  end.

(** The value the output is left with. *)
Definition final_output (name : string) (tr : list event) : option jsval :=
  last (map Some (outputs name tr)) None.

(** The failure messages reported; a run succeeds when there is none. *)
Fixpoint failures (tr : list event) : list string :=
  match tr with
  | [] => []
  | SetFailed message :: rest => message :: failures rest
  | _ :: rest => failures rest
  end.

(** The writes to the summary sink. *)
Fixpoint summary_writes (tr : list event) : list (string * string) :=
  match tr with
  | [] => []
  | WriteFile path data _ :: rest => (path, data) :: summary_writes rest
  | _ :: rest => summary_writes rest
  end.

(* ------------------------------------------------------------------ *)
(** ** The situation a run starts in *)

(** Each connection parameter as [run] resolves it: the input, else the
    environment variable. *)
Definition komodoUrl (w : World) : option string :=
  or_else (inputs w "komodo-url") (env w "KOMODO_URL").
Definition apiKey (w : World) : option string :=
  or_else (inputs w "api-key") (env w "KOMODO_API_KEY").
Definition apiSecret (w : World) : option string :=
  or_else (inputs w "api-secret") (env w "KOMODO_API_SECRET").

(** The three connection parameters are present, with these values. *)
Definition connected (w : World) (c : client) : Prop :=
  komodoUrl w = Some (client_url c) /\ truthy (client_url c) = true /\
  apiKey w = Some (client_key c) /\ truthy (client_key c) = true /\
  apiSecret w = Some (client_secret c) /\ truthy (client_secret c) = true.

(** At least one of them is absent: not supplied, or supplied empty. *)
Definition disconnected (w : World) : Prop :=
  truthy_opt (komodoUrl w) && truthy_opt (apiKey w) && truthy_opt (apiSecret w)
  = false.

(** The required inputs are supplied and [patterns] parses to the array
    [names]. *)
Definition targets_are (w : World) (names : list jsval) : Prop :=
  supplied w "kind" = true /\
  supplied w "patterns" = true /\
  JSON_parse w (inputs w "patterns") = Resolved (JArr names).

Definition dry_run (w : World) : bool := inputs w "dry-run" =? "true".

(** The summary sink, when one is configured, takes what is appended. *)
Definition sink_accepts (w : World) : Prop :=
  forall path data,
    env w "GITHUB_STEP_SUMMARY" = Some path -> writeFile w path data "a" = None.

(* ------------------------------------------------------------------ *)
(** ** The shape of a run *)

(** The operation and payload [executeOne] sends for a kind it supports. *)
Definition request_of (kind : string) (name : jsval) : option (string * jsval) :=
  if kind =? "stack" then Some ("DeployStack", JObj [("stack", name)])
  else if kind =? "procedure" then Some ("RunProcedure", JObj [("procedure", name)])
  else None.

Definition supported (kind : string) : Prop :=
  kind = "stack" \/ kind = "procedure".

Definition launch (kind : string) (name : jsval) : event :=
  Info ("🚀 " ++ kind ++ " → " ++ ToString name).

(** The own property [k] of an object, if it has one. *)
Fixpoint find_prop (o : obj) (k : string) : option jsval :=
  match o with
  | [] => None
  | (k', v) :: rest => if k' =? k then Some v else find_prop rest k
  end.

(** The records a raw result stands for: itself, or its elements. *)
Definition items_of (result : UpdateResult) : list UpdateItem :=
  match result with
  | One item => [item]
  | Many items => items
  end.

(** The specification's flattening: every list-valued result expanded in
    place. *)
Definition spec_flatten (raw : list UpdateResult) : list UpdateItem :=
  concat (map items_of raw).

(** The specification's reduction: the status of the last retained record
    that carries the identifier [k]. *)
Definition retained_as (k : string) (item : UpdateItem) : bool :=
  hasOid item && (oid_of item =? k).

Definition spec_status (k : string) (items : list UpdateItem) : option jsval :=
  match rev (filter (retained_as k) items) with
  | [] => None
  | update :: _ => Some (get_prop update "status")
  end.

(** The failure the [catch] clause reports for what it caught: the message
    of an [Error], nothing for any other value. *)
Definition reported (err : thrown) : list string :=
  match err with
  | ErrorObj message => [message]
  | NonError _ => []
  end.

(** What the [catch] clause adds to the trace of the [try] block. *)
Definition caught (c : completion unit) : list event :=
  match c with
  | Throw (ErrorObj message) => [SetFailed message]
  | _ => []
  end.

(** The calls [executeOne] issues for a list of targets. *)
Definition call_of (c : client) (kind : string) (name : jsval)
  : list (client * string * jsval) :=
  match request_of kind name with
  | Some (operation, payload) => [(c, operation, payload)]
  | None => []
  end.

Definition calls_of (c : client) (kind : string) (names : list jsval)
  : list (client * string * jsval) :=
  flat_map (call_of c kind) names.

(** The accumulation of the raw results in [results], as the loop does it. *)
Definition flatten (raw : list UpdateResult) : list UpdateItem :=
  fold_left push_result raw [].

(** What one pass through the dispatch loop emits for the targets [names],
    and how it ends: with the raw results of all the calls, or with what the
    first failing iteration threw. *)
Inductive dispatch_run (c : client) (kind : string)
  : list jsval -> list event -> completion (list UpdateResult) -> Prop :=
| dr_done :
    dispatch_run c kind [] [] (Normal [])
| dr_unsupported name rest :
    request_of kind name = None ->
    dispatch_run c kind (name :: rest) [launch kind name]
      (Throw (ErrorObj ("Unsupported kind: " ++ kind)))
| dr_rejected name rest operation payload t :
    request_of kind name = Some (operation, payload) ->
    dispatch_run c kind (name :: rest)
      [launch kind name; Execute c operation payload; Settle (Rejected t)]
      (Throw t)
| dr_resolved name rest operation payload r evs out :
    request_of kind name = Some (operation, payload) ->
    dispatch_run c kind rest evs out ->
    dispatch_run c kind (name :: rest)
      (launch kind name :: Execute c operation payload :: Settle (Resolved r) :: evs)
      (match out with
       | Normal raw => Normal (r :: raw)
       | Throw t => Throw t
       end).

(** Calls issued one after the other in target order: a call, its
    settlement, and only then the call for the next target; a rejection is
    the last thing that happens. *)
Inductive sequential (c : client) (kind : string)
  : list jsval -> list event -> Prop :=
| seq_done :
    sequential c kind [] []
| seq_resolved name rest operation payload r evs :
    request_of kind name = Some (operation, payload) ->
    sequential c kind rest evs ->
    sequential c kind (name :: rest)
      (Execute c operation payload :: Settle (Resolved r) :: evs)
| seq_rejected name rest operation payload t :
    request_of kind name = Some (operation, payload) ->
    sequential c kind (name :: rest)
      [Execute c operation payload; Settle (Rejected t)].

(** What [run] emits before it looks at the dry-run flag. *)
Definition preamble (w : World) (names : list jsval) : list event :=
  ((if Nat.eqb (List.length names) 0 then [SetOutput "updates" sentinel] else []) ++
   [Info ("Kind: " ++ inputs w "kind"); Info ("Targets: " ++ join ", " names)])%list.

Definition dry_run_notice : event :=
  Info "🧪 Dry-run enabled, nothing will be deployed".

(** The ways the [try] block of [run] can go, with what it has emitted and
    how it completes. *)
Inductive run_case (w : World) : completion unit -> list event -> Prop :=
| rc_kind_missing :
    supplied w "kind" = false ->
    run_case w (Throw (ErrorObj "Input required and not supplied: kind")) []
| rc_patterns_missing :
    supplied w "kind" = true ->
    supplied w "patterns" = false ->
    run_case w (Throw (ErrorObj "Input required and not supplied: patterns")) []
| rc_parse_rejected t :
    supplied w "kind" = true ->
    supplied w "patterns" = true ->
    JSON_parse w (inputs w "patterns") = Rejected t ->
    run_case w (Throw t) []
| rc_not_array v :
    supplied w "kind" = true ->
    supplied w "patterns" = true ->
    JSON_parse w (inputs w "patterns") = Resolved v ->
    Array_isArray v = false ->
    run_case w (Throw (ErrorObj (join_failure v)))
      [SetOutput "updates" sentinel; Info ("Kind: " ++ inputs w "kind")]
| rc_dry names :
    targets_are w names ->
    dry_run w = true ->
    run_case w (Normal tt)
      (preamble w names ++ [dry_run_notice; SetOutput "updates" (JObj [])])
| rc_disconnected names :
    targets_are w names ->
    dry_run w = false ->
    disconnected w ->
    run_case w (Normal tt) (preamble w names ++ [SetFailed config_error])
| rc_dispatch_throws names c evs t :
    targets_are w names ->
    dry_run w = false ->
    connected w c ->
    dispatch_run c (inputs w "kind") names evs (Throw t) ->
    run_case w (Throw t) (preamble w names ++ evs)
| rc_reported names c evs raw :
    targets_are w names ->
    dry_run w = false ->
    connected w c ->
    dispatch_run c (inputs w "kind") names evs (Normal raw) ->
    resolved_results evs = raw ->
    let map := updateStatusMap (flatten raw) in
    run_case w (fst (writeStepSummary w map []))
      (preamble w names ++ evs ++ [SetOutput "updates" (JObj map)]
       ++ snd (writeStepSummary w map [])).

(* ------------------------------------------------------------------ *)
(** ** Further vocabulary for the properties of a run *)

(** No summary sink is configured: [GITHUB_STEP_SUMMARY] is unset or
    empty. *)
Definition no_sink (w : World) : Prop :=
  truthy_opt (env w "GITHUB_STEP_SUMMARY") = false.

(** The server resolves every call it gets. *)
Definition always_resolves (w : World) : Prop :=
  forall tr c operation payload,
    exists r, execute_and_poll w tr c operation payload = Resolved r.

(** The entry a retained record contributes to the mapping. *)
Definition entry_of (update : UpdateItem) : string * jsval :=
  (oid_of update, get_prop update "status").

(** The rows of the summary table for a list of entries. *)
Fixpoint rows_text (entries : list (string * jsval)) : string :=
  match entries with
  | [] => ""
  | entry :: rest => summary_row entry ++ rows_text rest
  end.

(** The names of the own properties of an object, in creation order. *)
Definition keys (o : obj) : list string := map fst o.

(* ------------------------------------------------------------------ *)
(** ** Scenarios: concrete worlds *)

Module Scenarios.

Definition lookup (table : list (string * string)) (k : string) : option string :=
  match find (fun e => fst e =? k) table with
  | Some e => Some (snd e)
  | None => None
  end.

Definition input_of (table : list (string * string)) (k : string) : string :=
  match lookup table k with
  | Some v => v
  | None => ""
  end.

(** An input is supplied when the step gives it a non-empty value. *)
Definition supplied_of (table : list (string * string)) (k : string) : bool :=
  truthy (input_of table k).

Definition dq : string := String (ascii_of_nat 34) EmptyString.

(** The text [["a","b"]]. *)
Definition two_targets : string :=
  "[" ++ dq ++ "a" ++ dq ++ "," ++ dq ++ "b" ++ dq ++ "]".

(** [JSON.parse] on the texts the scenarios use. *)
Definition parse (raw : string) : settled jsval :=
  if raw =? "[]" then Resolved (JArr [])
  else if raw =? two_targets then Resolved (JArr [JStr "a"; JStr "b"])
  else if raw =? "{}" then Resolved (JObj [])
  else Rejected (ErrorObj ("Unexpected token in JSON: " ++ raw)).

(** An [Update] record as the client resolves with. *)
Definition makeUpdate (oid : string) (status : string) : UpdateItem :=
  [("_id", JObj [("$oid", JStr oid)]);
   ("status", JStr status);
   ("operation", JStr "DeployStack");
   ("success", JBool true)].

(** An error-shaped batch item. *)
Definition makeErr : UpdateItem :=
  [("status", JStr "Err"); ("data", JObj [("error", JStr "no such stack")])].

Definition credentials : list (string * string) :=
  [("komodo-url", "https://komodo.example.com");
   ("api-key", "fake-key");
   ("api-secret", "fake-secret")].

Definition the_client : client :=
  KomodoClient "https://komodo.example.com" "fake-key" "fake-secret".

(** A server that answers every call with one completed update named after
    the target. *)
Definition server_ok (_ : list event) (_ : client) (_ : string) (payload : jsval)
  : settled UpdateResult :=
  match payload with
  | JObj [(_, JStr name)] => Resolved (Many [makeUpdate ("id-" ++ name) "Complete"])
  | _ => Resolved (Many [])
  end.

(** A server whose every call rejects with [t]. *)
Definition server_rejects (t : thrown) (_ : list event) (_ : client) (_ : string)
  (_ : jsval) : settled UpdateResult := Rejected t.

Definition disk_ok (_ _ _ : string) : option thrown := None.

Definition disk_fails (t : thrown) (_ _ _ : string) : option thrown := Some t.

Definition summary_env : list (string * string) :=
  [("GITHUB_STEP_SUMMARY", "/tmp/summary.md")].

(** Two stacks deployed with credentials given as inputs. *)
Definition deploy_two : World := {|
  supplied := supplied_of (("kind", "stack") :: ("patterns", two_targets)
                      :: ("dry-run", "false") :: credentials);
  inputs := input_of (("kind", "stack") :: ("patterns", two_targets)
                      :: ("dry-run", "false") :: credentials);
  env := lookup summary_env;
  JSON_parse := parse;
  execute_and_poll := server_ok;
  writeFile := disk_ok
|}.

(** The same with an empty target list. *)
Definition deploy_none : World := {|
  supplied := supplied_of (("kind", "stack") :: ("patterns", "[]")
                      :: ("dry-run", "false") :: credentials);
  inputs := input_of (("kind", "stack") :: ("patterns", "[]")
                      :: ("dry-run", "false") :: credentials);
  env := lookup summary_env;
  JSON_parse := parse;
  execute_and_poll := server_ok;
  writeFile := disk_ok
|}.



(** The server rejects with [new Error("boom")]. *)
Definition boom_error : World := {|
  supplied := supplied_of (("kind", "stack") :: ("patterns", two_targets)
                      :: ("dry-run", "false") :: credentials);
  inputs := input_of (("kind", "stack") :: ("patterns", two_targets)
                      :: ("dry-run", "false") :: credentials);
  env := lookup summary_env;
  JSON_parse := parse;
  execute_and_poll := server_rejects (ErrorObj "boom");
  writeFile := disk_ok
|}.

(** The server rejects with the bare string ["boom"]. *)
Definition boom_string : World := {|
  supplied := supplied_of (("kind", "stack") :: ("patterns", two_targets)
                      :: ("dry-run", "false") :: credentials);
  inputs := input_of (("kind", "stack") :: ("patterns", two_targets)
                      :: ("dry-run", "false") :: credentials);
  env := lookup summary_env;
  JSON_parse := parse;
  execute_and_poll := server_rejects (NonError (JStr "boom"));
  writeFile := disk_ok
|}.

(** The summary write rejects with an [Error]. *)
Definition disk_rejects_error : World := {|
  supplied := supplied_of (("kind", "stack") :: ("patterns", two_targets)
                      :: ("dry-run", "false") :: credentials);
  inputs := input_of (("kind", "stack") :: ("patterns", two_targets)
                      :: ("dry-run", "false") :: credentials);
  env := lookup summary_env;
  JSON_parse := parse;
  execute_and_poll := server_ok;
  writeFile := disk_fails (ErrorObj "EACCES: permission denied, open '/tmp/summary.md'")
|}.

(** A dry run whose [patterns] input is the text of an object. *)
Definition dry_not_a_list : World := {|
  supplied := supplied_of [("kind", "stack"); ("patterns", "{}"); ("dry-run", "true")];
  inputs := input_of [("kind", "stack"); ("patterns", "{}"); ("dry-run", "true")];
  env := lookup summary_env;
  JSON_parse := parse;
  execute_and_poll := server_ok;
  writeFile := disk_ok
|}.

(** A kind the action does not know, as the repository's test passes it. *)
Definition deploy_service : World := {|
  supplied := supplied_of (("kind", "service") :: ("patterns", two_targets)
                      :: ("dry-run", "false") :: credentials);
  inputs := input_of (("kind", "service") :: ("patterns", two_targets)
                      :: ("dry-run", "false") :: credentials);
  env := lookup summary_env;
  JSON_parse := parse;
  execute_and_poll := server_ok;
  writeFile := disk_ok
|}.

(** Two stacks deployed with the credentials taken from the environment
    and no summary sink. *)
Definition deploy_from_env : World := {|
  supplied := supplied_of [("kind", "stack"); ("patterns", two_targets)];
  inputs := input_of [("kind", "stack"); ("patterns", two_targets)];
  env := lookup [("KOMODO_URL", "https://komodo.example.com");
                 ("KOMODO_API_KEY", "fake-key");
                 ("KOMODO_API_SECRET", "fake-secret")];
  JSON_parse := parse;
  execute_and_poll := server_ok;
  writeFile := disk_ok
|}.

(** An input and an environment variable that disagree on the URL. *)
Definition url_given_twice : World := {|
  supplied := supplied_of (("kind", "procedure") :: ("patterns", two_targets)
                      :: credentials);
  inputs := input_of (("kind", "procedure") :: ("patterns", two_targets)
                      :: credentials);
  env := lookup [("KOMODO_URL", "https://other.example.com")];
  JSON_parse := parse;
  execute_and_poll := server_ok;
  writeFile := disk_ok
|}.

(** An empty target list and no API key. *)
Definition none_without_key : World := {|
  supplied := supplied_of [("kind", "stack"); ("patterns", "[]");
                      ("komodo-url", "https://komodo.example.com");
                      ("api-secret", "fake-secret")];
  inputs := input_of [("kind", "stack"); ("patterns", "[]");
                      ("komodo-url", "https://komodo.example.com");
                      ("api-secret", "fake-secret")];
  env := lookup summary_env;
  JSON_parse := parse;
  execute_and_poll := server_ok;
  writeFile := disk_ok
|}.

(** A [patterns] input that is not JSON. *)
Definition not_json : World := {|
  supplied := supplied_of (("kind", "stack") :: ("patterns", "immich,umami")
                      :: credentials);
  inputs := input_of (("kind", "stack") :: ("patterns", "immich,umami")
                      :: credentials);
  env := lookup summary_env;
  JSON_parse := parse;
  execute_and_poll := server_ok;
  writeFile := disk_ok
|}.


(** A [kind] input made of blanks: supplied, and handed over empty. *)
Definition blank_kind : World := {|
  supplied := supplied_of (("kind", "  ") :: ("patterns", two_targets)
                           :: credentials);
  inputs := input_of (("kind", "") :: ("patterns", two_targets)
                      :: credentials);
  env := lookup summary_env;
  JSON_parse := parse;
  execute_and_poll := server_ok;
  writeFile := disk_ok
|}.

End Scenarios.

(* ------------------------------------------------------------------ *)
(** ** The observers distribute over concatenation *)

Lemma remote_calls_app (a b : list event) :
  remote_calls (a ++ b) = (remote_calls a ++ remote_calls b)%list.
Proof.
  induction a as [|[] a IH]; simpl; rewrite ?IH; reflexivity.
Qed.

Lemma remote_events_app (a b : list event) :
  remote_events (a ++ b) = (remote_events a ++ remote_events b)%list.
Proof.
  induction a as [|[] a IH]; simpl; rewrite ?IH; reflexivity.
Qed.

Lemma resolved_results_app (a b : list event) :
  resolved_results (a ++ b) = (resolved_results a ++ resolved_results b)%list.
Proof.
  induction a as [|[| | | |[]|] a IH]; simpl; rewrite ?IH; reflexivity.
Qed.

Lemma outputs_app (name : string) (a b : list event) :
  outputs name (a ++ b) = (outputs name a ++ outputs name b)%list.
Proof.
  induction a as [|[] a IH]; simpl; rewrite ?IH; try reflexivity.
  destruct (_ =? _); simpl; rewrite ?IH; reflexivity.
Qed.

Lemma failures_app (a b : list event) :
  failures (a ++ b) = (failures a ++ failures b)%list.
Proof.
  induction a as [|[] a IH]; simpl; rewrite ?IH; reflexivity.
Qed.

Lemma summary_writes_app (a b : list event) :
  summary_writes (a ++ b) = (summary_writes a ++ summary_writes b)%list.
Proof.
  induction a as [|[] a IH]; simpl; rewrite ?IH; reflexivity.
Qed.

Create Rewrite HintDb observe.
#[export] Hint Rewrite remote_calls_app remote_events_app resolved_results_app
  outputs_app failures_app summary_writes_app app_nil_r : observe.
#[export] Hint Rewrite <- app_assoc : observe.

(* ------------------------------------------------------------------ *)
(** ** One iteration of the dispatch loop *)

Lemma supported_request (kind : string) (name : jsval) :
  supported kind -> exists operation payload,
    request_of kind name = Some (operation, payload).
Proof.
  intros [-> | ->]; cbn; eauto.
Qed.

Lemma unsupported_request (kind : string) (name : jsval) :
  ~ supported kind -> request_of kind name = None.
Proof.
  intros H. unfold request_of.
  destruct (String.eqb_spec kind "stack") as [->|_].
  - exfalso. apply H. now left.
  - destruct (String.eqb_spec kind "procedure") as [->|_]; [|reflexivity].
    exfalso. apply H. now right.
Qed.

Lemma request_supported (kind : string) (name : jsval) (rq : string * jsval) :
  request_of kind name = Some rq -> supported kind.
Proof.
  unfold request_of, supported.
  destruct (String.eqb_spec kind "stack"); [auto|].
  destruct (String.eqb_spec kind "procedure"); [auto|discriminate].
Qed.

Lemma executeOne_request (w : World) (c : client) (kind : string) (name : jsval)
  (operation : string) (payload : jsval) (tr : list event) :
  request_of kind name = Some (operation, payload) ->
  executeOne w c kind name tr =
  let outcome := execute_and_poll w tr c operation payload in
  (match outcome with
   | Resolved r => Normal r
   | Rejected t => Throw t
   end,
   tr ++ [Execute c operation payload; Settle outcome])%list.
Proof.
  unfold request_of, executeOne, call_execute_and_poll.
  destruct (kind =? "stack").
  - intros [= <- <-]. cbn. rewrite <- app_assoc.
    destruct (execute_and_poll _ _ _ _ _); reflexivity.
  - destruct (kind =? "procedure"); [|discriminate].
    intros [= <- <-]. cbn. rewrite <- app_assoc.
    destruct (execute_and_poll _ _ _ _ _); reflexivity.
Qed.

Lemma executeOne_unsupported (w : World) (c : client) (kind : string)
  (name : jsval) (tr : list event) :
  request_of kind name = None ->
  executeOne w c kind name tr = (Throw (ErrorObj ("Unsupported kind: " ++ kind)), tr).
Proof.
  unfold request_of, executeOne.
  destruct (kind =? "stack"); [discriminate|].
  destruct (kind =? "procedure"); [discriminate|reflexivity].
Qed.

Lemma dispatch_nil (w : World) (c : client) (kind : string)
  (results : list UpdateItem) (tr : list event) :
  dispatch w c kind [] results tr = (Normal results, tr).
Proof. reflexivity. Qed.

Lemma dispatch_unsupported (w : World) (c : client) (kind : string)
  (name : jsval) (rest : list jsval) (results : list UpdateItem) (tr : list event) :
  request_of kind name = None ->
  dispatch w c kind (name :: rest) results tr =
  (Throw (ErrorObj ("Unsupported kind: " ++ kind)), tr ++ [launch kind name])%list.
Proof.
  intros H. cbn [dispatch]. unfold bind at 1. unfold info, emit.
  unfold bind. rewrite (executeOne_unsupported _ _ _ _ _ H). reflexivity.
Qed.

Lemma dispatch_resolved (w : World) (c : client) (kind : string)
  (name : jsval) (rest : list jsval) (results : list UpdateItem) (tr : list event)
  (operation : string) (payload : jsval) (r : UpdateResult) :
  request_of kind name = Some (operation, payload) ->
  execute_and_poll w (tr ++ [launch kind name]) c operation payload = Resolved r ->
  dispatch w c kind (name :: rest) results tr =
  dispatch w c kind rest (push_result results r)
    (tr ++ [launch kind name; Execute c operation payload; Settle (Resolved r)])%list.
Proof.
  intros H Hr. unfold launch in *. cbn [dispatch]. unfold bind at 1.
  unfold info, emit, bind at 1. rewrite (executeOne_request _ _ _ _ _ _ _ H). cbn zeta.
  rewrite Hr. rewrite <- app_assoc. reflexivity.
Qed.

Lemma dispatch_rejected (w : World) (c : client) (kind : string)
  (name : jsval) (rest : list jsval) (results : list UpdateItem) (tr : list event)
  (operation : string) (payload : jsval) (t : thrown) :
  request_of kind name = Some (operation, payload) ->
  execute_and_poll w (tr ++ [launch kind name]) c operation payload = Rejected t ->
  dispatch w c kind (name :: rest) results tr =
  (Throw t,
   tr ++ [launch kind name; Execute c operation payload; Settle (Rejected t)])%list.
Proof.
  intros H Hr. unfold launch in *. cbn [dispatch]. unfold bind at 1.
  unfold info, emit, bind at 1. rewrite (executeOne_request _ _ _ _ _ _ _ H). cbn zeta.
  rewrite Hr. rewrite <- app_assoc. reflexivity.
Qed.

(** The loop, whatever the server answers, goes one of the ways
    [dispatch_run] describes. *)
Lemma dispatch_shape (w : World) (c : client) (kind : string) (names : list jsval) :
  forall (results : list UpdateItem) (tr : list event),
  exists evs out,
    dispatch_run c kind names evs out /\
    dispatch w c kind names results tr =
    (match out with
     | Normal raw => Normal (fold_left push_result raw results)
     | Throw t => Throw t
     end, tr ++ evs)%list.
Proof.
  induction names as [|name rest IH]; intros results tr.
  - exists [], (Normal []). split; [constructor|].
    rewrite dispatch_nil, app_nil_r. reflexivity.
  - destruct (request_of kind name) as [[operation payload]|] eqn:Hrq.
    + destruct (execute_and_poll w (tr ++ [launch kind name]) c operation payload)
        as [r|t] eqn:Hout.
      * rewrite (dispatch_resolved _ _ _ _ _ _ _ _ _ _ Hrq Hout).
        destruct (IH (push_result results r)
                     (tr ++ [launch kind name; Execute c operation payload;
                             Settle (Resolved r)])%list)
          as (evs & out & Hrun & Heq).
        eexists; eexists. split; [eapply dr_resolved; eassumption|].
        rewrite Heq, <- app_assoc. destruct out; reflexivity.
      * rewrite (dispatch_rejected _ _ _ _ _ _ _ _ _ _ Hrq Hout).
        eexists; eexists. split; [eapply dr_rejected; eassumption|reflexivity].
    + rewrite (dispatch_unsupported _ _ _ _ _ _ _ Hrq).
      eexists; eexists. split; [eapply dr_unsupported; eassumption|reflexivity].
Qed.

(** [writeStepSummary] only appends to the trace. *)
Lemma writeStepSummary_frame (w : World) (map : obj) (tr : list event) :
  writeStepSummary w map tr =
  (fst (writeStepSummary w map []), tr ++ snd (writeStepSummary w map []))%list.
Proof.
  unfold writeStepSummary.
  destruct (env w "GITHUB_STEP_SUMMARY") as [path|]; cbn;
    [|now rewrite app_nil_r].
  destruct (truthy path); cbn; [|now rewrite app_nil_r].
  unfold bind, emit; cbn.
  destruct (writeFile w path _ "a"); reflexivity.
Qed.

Lemma connected_or_not (w : World) :
  (exists c, connected w c) \/ disconnected w.
Proof.
  unfold connected, disconnected.
  destruct (komodoUrl w) as [url|]; [|now right].
  destruct (apiKey w) as [key|]; [|right; cbn; now rewrite andb_false_r].
  destruct (apiSecret w) as [secret|]; [|right; cbn; now rewrite andb_false_r].
  cbn. destruct (truthy url) eqn:Hu; [|now right].
  destruct (truthy key) eqn:Hk; [|now right].
  destruct (truthy secret) eqn:Hs; [|now right].
  left. exists (KomodoClient url key secret). cbn. auto 10.
Qed.

Lemma connected_excludes (w : World) (c : client) :
  connected w c -> disconnected w -> False.
Proof.
  unfold connected, disconnected.
  intros (H1 & H2 & H3 & H4 & H5 & H6). rewrite H1, H3, H5. cbn.
  rewrite H2, H4, H6. discriminate.
Qed.

Lemma connected_unique (w : World) (c c' : client) :
  connected w c -> connected w c' -> c = c'.
Proof.
  unfold connected. destruct c, c'; cbn.
  intros (-> & _ & -> & _ & -> & _) ([= ->] & _ & [= ->] & _ & [= ->] & _).
  reflexivity.
Qed.

Lemma targets_unique (w : World) (names names' : list jsval) :
  targets_are w names -> targets_are w names' -> names = names'.
Proof.
  intros (_ & _ & H) (_ & _ & H'). congruence.
Qed.

Lemma bind_ret {A B} (a : A) (k : A -> M B) (tr : list event) :
  bind (ret a) k tr = k a tr.
Proof. reflexivity. Qed.

Lemma bind_throw {A B} (t : thrown) (k : A -> M B) (tr : list event) :
  bind (throw t) k tr = (Throw t, tr).
Proof. reflexivity. Qed.

Lemma bind_emit {B} (e : event) (k : unit -> M B) (tr : list event) :
  bind (emit e) k tr = k tt (tr ++ [e])%list.
Proof. reflexivity. Qed.

Lemma bind_run {A B} (m : M A) (k : A -> M B) (tr : list event) :
  bind m k tr =
  match m tr with
  | (Normal a, tr') => k a tr'
  | (Throw t, tr') => (Throw t, tr')
  end.
Proof. reflexivity. Qed.

Lemma resolved_results_run (c : client) (kind : string) (names : list jsval)
  (evs : list event) (raw : list UpdateResult) :
  dispatch_run c kind names evs (Normal raw) -> resolved_results evs = raw.
Proof.
  intros Hrun. remember (Normal raw) as out eqn:Hout.
  revert raw Hout. induction Hrun; intros raw' Hout; try discriminate.
  - now injection Hout as <-.
  - destruct out; [|discriminate]. injection Hout as <-.
    cbn. f_equal. now apply IHHrun.
Qed.

(** Every run goes one of the ways [run_case] describes. *)
Lemma run_body_cases (w : World) :
  run_case w (fst (run_body w [])) (snd (run_body w [])).
Proof.
  unfold run_body, getInput, info, setOutput, setFailed.
  destruct (supplied w "kind") eqn:Hkind; cbn [andb negb].
  2:{ rewrite bind_throw. apply rc_kind_missing; assumption. }
  rewrite bind_ret.
  destruct (supplied w "patterns") eqn:Hpat; cbn [andb negb].
  2:{ rewrite bind_throw. apply rc_patterns_missing; assumption. }
  rewrite !bind_ret.
  destruct (JSON_parse w (inputs w "patterns")) as [v|t] eqn:Hparse; cbn [await].
  2:{ rewrite bind_throw. apply rc_parse_rejected; assumption. }
  rewrite bind_ret.
  destruct (Array_isArray v) eqn:Harr; cbn [negb orb].
  2:{ rewrite !bind_emit.
      replace (patterns_join v) with (@throw string (ErrorObj (join_failure v)))
        by (destruct v; try reflexivity; discriminate).
      rewrite bind_throw. apply rc_not_array; assumption. }
  destruct v as [| | | | |names|]; try discriminate.
  cbn [elements patterns_join].
  assert (Htargets : targets_are w names) by (repeat split; assumption).
  assert (Hpre : forall B (k : unit -> M B),
    bind (if Nat.eqb (List.length names) 0
          then emit (SetOutput "updates" sentinel) else ret tt) k []
    = k tt (if Nat.eqb (List.length names) 0
            then [SetOutput "updates" sentinel] else []))
    by (intros; destruct (Nat.eqb _ _); reflexivity).
  rewrite Hpre, bind_emit, bind_ret, bind_emit.
  rewrite <- app_assoc. cbn [app].
  change (_ ++ [Info _; Info _])%list with (preamble w names).
  fold (dry_run w). destruct (dry_run w) eqn:Hdry.
  { rewrite !bind_emit. unfold emit. cbn [fst snd].
    rewrite <- app_assoc. apply rc_dry; assumption. }
  rewrite !bind_ret.
  fold (komodoUrl w) (apiKey w) (apiSecret w).
  destruct (connected_or_not w) as [[c Hc]|Hd].
  - pose proof Hc as (-> & -> & -> & -> & -> & ->). cbn [andb].
    destruct c as [url key secret]; cbn [client_url client_key client_secret] in *.
    rewrite bind_run.
    destruct (dispatch_shape w (KomodoClient url key secret) (inputs w "kind")
                names [] (preamble w names)) as (evs & out & Hrun & ->).
    destruct out as [raw|t]; cbn [fst snd].
    + rewrite bind_emit, writeStepSummary_frame. cbn [fst snd].
      rewrite <- !app_assoc.
      fold (flatten raw).
      eapply rc_reported; try eassumption.
      eapply resolved_results_run; eassumption.
    + eapply rc_dispatch_throws; eassumption.
  - pose proof Hd as Hd'. unfold disconnected in Hd'.
    destruct (komodoUrl w) as [url|];
      [destruct (apiKey w) as [key|]; [destruct (apiSecret w) as [secret|]|]|];
      cbn [truthy_opt] in Hd'; try rewrite Hd';
      unfold emit; cbn [fst snd]; apply rc_disconnected; assumption.
Qed.

Lemma run_caught (w : World) :
  run w = (snd (run_body w []) ++ caught (fst (run_body w [])))%list.
Proof.
  unfold run, try_catch, on_error, caught, setFailed, emit, ret.
  destruct (run_body w []) as [[[]|[message|v]] tr]; cbn [fst snd];
    rewrite ?app_nil_r; reflexivity.
Qed.

(** A run is one of the cases of [run_case], closed by the [catch] clause. *)
Lemma run_cases (w : World) :
  exists c tr, run_case w c tr /\ run_body w [] = (c, tr) /\
               run w = (tr ++ caught c)%list.
Proof.
  exists (fst (run_body w [])), (snd (run_body w [])).
  split; [apply run_body_cases|]. split; [|apply run_caught].
  now destruct (run_body w []).
Qed.

(* ------------------------------------------------------------------ *)
(** ** What the pieces of a run emit *)

Lemma preamble_quiet (w : World) (names : list jsval) :
  remote_calls (preamble w names) = [] /\
  remote_events (preamble w names) = [] /\
  resolved_results (preamble w names) = [] /\
  failures (preamble w names) = [] /\
  summary_writes (preamble w names) = [].
Proof.
  unfold preamble. destruct (Nat.eqb _ _); cbn; auto.
Qed.

Lemma preamble_outputs (w : World) (names : list jsval) :
  outputs "updates" (preamble w names) =
  match names with
  | [] => [sentinel]
  | _ :: _ => []
  end.
Proof.
  unfold preamble. destruct names; reflexivity.
Qed.

(** The loop reports nothing: no output, no failure, no summary. *)
Lemma dispatch_run_quiet (c : client) (kind : string) (names : list jsval)
  (evs : list event) (out : completion (list UpdateResult)) (name : string) :
  dispatch_run c kind names evs out ->
  outputs name evs = [] /\ failures evs = [] /\ summary_writes evs = [].
Proof.
  induction 1; cbn; auto.
Qed.

Lemma dispatch_run_sequential (c : client) (kind : string) (names : list jsval)
  (evs : list event) (out : completion (list UpdateResult)) :
  supported kind ->
  dispatch_run c kind names evs out ->
  sequential c kind names (remote_events evs).
Proof.
  intros Hk. induction 1; cbn.
  - constructor.
  - destruct (supported_request kind name Hk) as (? & ? & ?). congruence.
  - econstructor; eassumption.
  - econstructor; eassumption.
Qed.

(** When the loop completes, every target got its call, in order. *)
Lemma dispatch_run_complete (c : client) (kind : string) (names : list jsval)
  (evs : list event) (raw : list UpdateResult) :
  dispatch_run c kind names evs (Normal raw) ->
  remote_calls evs = calls_of c kind names /\
  (forall t, ~ In (Settle (Rejected t)) evs).
Proof.
  intros Hrun. remember (Normal raw) as out eqn:Hout.
  revert raw Hout. induction Hrun; intros raw' Hout; try discriminate.
  - split; [reflexivity|]. intros t [].
  - destruct out as [raw|]; [|discriminate].
    destruct (IHHrun raw eq_refl) as [IHc IHr].
    split.
    + cbn. unfold call_of at 1. rewrite H. cbn. now rewrite IHc.
    + intros t [Hin|[Hin|[Hin|Hin]]]; try discriminate. now apply (IHr t).
Qed.

(** When the loop throws, the targets after the failing one got no call, and
    a rejection, if that is what happened, is what was thrown and the last
    thing in the trace. *)
Lemma dispatch_run_aborted (c : client) (kind : string) (names : list jsval)
  (evs : list event) (t : thrown) :
  dispatch_run c kind names evs (Throw t) ->
  exists served name skipped,
    names = (served ++ name :: skipped)%list /\
    remote_calls evs = calls_of c kind (served ++ [name]) /\
    (forall t', In (Settle (Rejected t')) evs ->
                t' = t /\ exists evs', evs = (evs' ++ [Settle (Rejected t)])%list).
Proof.
  intros Hrun. remember (Throw t) as out eqn:Hout.
  revert Hout. induction Hrun; intros Hout; try discriminate.
  - exists [], name, rest. split; [reflexivity|]. split.
    + cbn. unfold call_of. now rewrite H.
    + intros t' [Hin|[]]. discriminate.
  - injection Hout as ->.
    exists [], name, rest. split; [reflexivity|]. split.
    + cbn. unfold call_of. now rewrite H.
    + intros t' [Hin|[Hin|[Hin|[]]]]; try discriminate.
      injection Hin as ->. split; [reflexivity|].
      now exists [launch kind name; Execute c operation payload].
  - destruct out as [|t0]; [discriminate|]. injection Hout as ->.
    destruct (IHHrun eq_refl) as (served & name' & skipped & -> & Hcalls & Hrej).
    exists (name :: served), name', skipped. split; [reflexivity|]. split.
    + cbn. unfold call_of at 1. rewrite H. cbn. now rewrite Hcalls.
    + intros t' [Hin|[Hin|[Hin|Hin]]]; try discriminate.
      destruct (Hrej t' Hin) as (-> & evs' & ->). split; [reflexivity|].
      now exists (launch kind name :: Execute c operation payload
                  :: Settle (Resolved r) :: evs').
Qed.

(** [writeStepSummary] touches nothing but the sink. *)
Lemma summary_quiet (w : World) (map : obj) (name : string) :
  let evs := snd (writeStepSummary w map []) in
  remote_calls evs = [] /\ remote_events evs = [] /\ resolved_results evs = [] /\
  outputs name evs = [] /\ failures evs = [].
Proof.
  unfold writeStepSummary.
  destruct (env w "GITHUB_STEP_SUMMARY") as [path|]; cbn; auto.
  destruct (truthy path); cbn; auto.
  unfold bind, emit; cbn. destruct (writeFile w path _ "a"); cbn; auto.
Qed.

Lemma summary_accepted (w : World) (map : obj) :
  sink_accepts w -> fst (writeStepSummary w map []) = Normal tt.
Proof.
  intros Hsink. unfold writeStepSummary.
  destruct (env w "GITHUB_STEP_SUMMARY") as [path|] eqn:Henv; cbn; auto.
  destruct (truthy path); cbn; auto.
  unfold bind, emit; cbn. now rewrite (Hsink path _ Henv).
Qed.

Lemma caught_quiet (c : completion unit) (name : string) :
  remote_calls (caught c) = [] /\ remote_events (caught c) = [] /\
  resolved_results (caught c) = [] /\ outputs name (caught c) = [] /\
  summary_writes (caught c) = [].
Proof.
  destruct c as [|[]]; cbn; auto.
Qed.

Lemma final_output_last (name : string) (tr : list event) (vs : list jsval)
  (v : jsval) :
  outputs name tr = (vs ++ [v])%list -> final_output name tr = Some v.
Proof.
  intros H. unfold final_output. rewrite H, map_app. cbn. apply last_last.
Qed.


Lemma outputs_In (name : string) (value : jsval) (tr : list event) :
  In (SetOutput name value) tr -> In value (outputs name tr).
Proof.
  induction tr as [|e tr IH]; [intros []|].
  intros [->|Hin].
  - cbn. rewrite String.eqb_refl. now left.
  - destruct e; cbn; auto. destruct (_ =? _); cbn; auto.
Qed.

Lemma remote_events_In (outcome : settled UpdateResult) (tr : list event) :
  In (Settle outcome) tr <-> In (Settle outcome) (remote_events tr).
Proof.
  induction tr as [|e tr IH]; [reflexivity|].
  destruct e; cbn; rewrite <- ?IH; intuition discriminate.
Qed.

(** Observing a trace piece by piece. *)
Ltac observe :=
  autorewrite with observe;
  repeat match goal with
    | |- context [preamble ?w ?names] =>
        progress (rewrite ?(proj1 (preamble_quiet w names)),
                   ?(proj1 (proj2 (preamble_quiet w names))),
                   ?(proj1 (proj2 (proj2 (preamble_quiet w names)))),
                   ?(proj1 (proj2 (proj2 (proj2 (preamble_quiet w names))))),
                   ?(proj2 (proj2 (proj2 (proj2 (preamble_quiet w names))))),
                   ?preamble_outputs)
    | |- context [caught ?c] =>
        progress (rewrite ?(proj1 (caught_quiet c "updates")),
                   ?(proj1 (proj2 (caught_quiet c "updates"))),
                   ?(proj1 (proj2 (proj2 (caught_quiet c "updates")))),
                   ?(proj1 (proj2 (proj2 (proj2 (caught_quiet c "updates"))))),
                   ?(proj2 (proj2 (proj2 (proj2 (caught_quiet c "updates"))))))
    | |- context [writeStepSummary ?w ?map []] =>
        progress (rewrite ?(proj1 (summary_quiet w map "updates")),
                   ?(proj1 (proj2 (summary_quiet w map "updates"))),
                   ?(proj1 (proj2 (proj2 (summary_quiet w map "updates")))),
                   ?(proj1 (proj2 (proj2 (proj2 (summary_quiet w map "updates"))))),
                   ?(proj2 (proj2 (proj2 (proj2 (summary_quiet w map "updates"))))))
    end;
  cbn [remote_calls remote_events resolved_results outputs failures
       summary_writes app String.eqb Ascii.eqb Bool.eqb];
  rewrite ?app_nil_r.

(** Discarding the cases of [run_case] that the hypotheses exclude. *)
Ltac excluded :=
  solve
    [ congruence
    | match goal with
      | Hp : JSON_parse ?w ?raw = Resolved (JArr _),
        Hv : JSON_parse ?w ?raw = Resolved ?v,
        Ha : Array_isArray ?v = false |- _ =>
          rewrite Hp in Hv; injection Hv as <-; discriminate Ha
      end
    | exfalso; eapply connected_excludes; eassumption ].

(* ------------------------------------------------------------------ *)
(** ** Dry run *)



(* ------------------------------------------------------------------ *)
(** ** Connection parameters *)


(* ------------------------------------------------------------------ *)
(** ** The empty target list *)

(** C1.  When [patterns] parses to the empty list, the connection parameters
    are present and the run is not a dry run, the output [updates] is set
    twice: first to the sentinel string, last to the empty mapping; no remote
    call is issued in between; and the run reports no failure, the summary
    sink taking what is appended to it. *)
Theorem empty_targets_overwrite_sentinel (w : World) (c : client) :
  targets_are w [] ->
  dry_run w = false ->
  connected w c ->
  outputs "updates" (run w) = [JStr "Nothing to update here"; JObj []] /\
  remote_calls (run w) = [] /\
  final_output "updates" (run w) = Some (JObj []) /\
  (sink_accepts w -> failures (run w) = []).
Proof.
  intros Htargets Hdry Hconn.
  destruct (run_cases w) as (out & tr & Hcase & _ & Hrun).
  pose proof Htargets as (Hk & Hp & Hparse).
  destruct Hcase; try excluded.
  - rewrite (targets_unique _ _ _ H Htargets) in *. inversion H2.
  - rewrite (targets_unique _ _ _ H Htargets) in *.
    inversion H2; subst. subst map.
    change (updateStatusMap (flatten (resolved_results [])))
      with (@nil (string * jsval)) in *.
    assert (Hout : outputs "updates" (run w) = [sentinel; JObj []])
      by (rewrite Hrun; now observe).
    repeat split.
    + exact Hout.
    + rewrite Hrun. now observe.
    + apply (final_output_last _ _ [sentinel]). exact Hout.
    + intros Hsink. rewrite Hrun, (summary_accepted w [] Hsink).
      cbn [caught]. now observe.
Qed.

(* ------------------------------------------------------------------ *)
(** ** The dispatch loop *)

Lemma calls_of_length (c : client) (kind : string) (names : list jsval) :
  supported kind -> List.length (calls_of c kind names) = List.length names.
Proof.
  intros Hk. induction names as [|name rest IH]; [reflexivity|].
  destruct (supported_request kind name Hk) as (operation & payload & Hrq).
  change (calls_of c kind (name :: rest))
    with (call_of c kind name ++ calls_of c kind rest)%list.
  unfold call_of. rewrite Hrq. cbn. now rewrite IH.
Qed.

Lemma dispatch_run_rejection (c : client) (kind : string) (names : list jsval)
  (evs : list event) (t : thrown) :
  supported kind ->
  dispatch_run c kind names evs (Throw t) ->
  In (Settle (Rejected t)) evs.
Proof.
  intros Hk Hrun. remember (Throw t) as out eqn:Hout.
  revert Hout. induction Hrun; intros Hout; try discriminate.
  - destruct (supported_request kind name Hk) as (? & ? & ?). congruence.
  - injection Hout as ->. cbn. auto.
  - destruct out; [discriminate|]. injection Hout as ->.
    cbn. auto 6.
Qed.

(** C6.  With the inputs resolved, a supported kind and the connection
    parameters present, the remote calls of a run that is not a dry run are
    issued one at a time in target order: each call is followed by its
    settlement before the call for the next target is issued, and a
    rejection ends the sequence.  When no call rejects there is exactly one
    call per target. *)
Theorem calls_are_sequential (w : World) (names : list jsval) (c : client) :
  targets_are w names ->
  dry_run w = false ->
  connected w c ->
  supported (inputs w "kind") ->
  sequential c (inputs w "kind") names (remote_events (run w)) /\
  ((forall t, ~ In (Settle (Rejected t)) (run w)) ->
   remote_calls (run w) = calls_of c (inputs w "kind") names /\
   List.length (remote_calls (run w)) = List.length names).
Proof.
  intros Htargets Hdry Hconn Hkind.
  destruct (run_cases w) as (out & tr & Hcase & _ & Hrun).
  pose proof Htargets as (Hk & Hp & Hparse).
  destruct Hcase; try excluded.
  - rewrite (targets_unique _ _ _ H Htargets) in *.
    rewrite (connected_unique _ _ _ H1 Hconn) in *.
    split.
    + rewrite Hrun. observe.
      eapply dispatch_run_sequential; eassumption.
    + intros Hnone. exfalso. apply (Hnone t). rewrite Hrun.
      apply in_or_app. left. apply in_or_app. right.
      eapply dispatch_run_rejection; eassumption.
  - rewrite (targets_unique _ _ _ H Htargets) in *.
    rewrite (connected_unique _ _ _ H1 Hconn) in *.
    destruct (dispatch_run_complete _ _ _ _ _ H2) as (Hcalls & _).
    assert (Hall : remote_calls (run w) = calls_of c (inputs w "kind") names)
      by (rewrite Hrun; now observe).
    split.
    + rewrite Hrun. observe.
      eapply dispatch_run_sequential; eassumption.
    + intros _. split; [exact Hall|].
      rewrite Hall. now apply calls_of_length.
Qed.

(** C3, as the code has it.  When a dispatched call rejects, the rejection
    is the last thing the loop does: the targets after the failing one get
    no call, the output [updates] is never set and nothing is written to the
    summary sink.  The run fails with exactly the rejection's message when
    what the call rejected with is an [Error]; it reports no failure when it
    is any other value. *)
Theorem rejection_aborts_run (w : World) (t : thrown) :
  In (Settle (Rejected t)) (run w) ->
  failures (run w) = reported t /\
  outputs "updates" (run w) = [] /\
  summary_writes (run w) = [] /\
  (exists tr,
     run w = (tr ++ Settle (Rejected t) :: map SetFailed (reported t))%list) /\
  (exists c served name skipped,
     connected w c /\
     targets_are w (served ++ name :: skipped) /\
     remote_calls (run w) = calls_of c (inputs w "kind") (served ++ [name])).
Proof.
  intros Hin.
  destruct (run_cases w) as (out & tr & Hcase & _ & Hrun).
  rewrite Hrun in Hin. apply remote_events_In in Hin. revert Hin.
  destruct Hcase; observe; try (intros []; fail).
  - intros Hin. apply remote_events_In in Hin.
    destruct (dispatch_run_aborted _ _ _ _ _ H2)
      as (served & name & skipped & -> & Hcalls & Hrej).
    destruct (Hrej _ Hin) as (<- & evs' & Hevs).
    destruct (dispatch_run_quiet _ _ _ _ _ "updates" H2) as (Q1 & Q2 & Q3).
    rewrite Hrun. repeat split.
    + observe. rewrite Q2. now destruct t.
    + observe. rewrite Q1. now destruct served.
    + observe. now rewrite Q3.
    + exists (preamble w (served ++ name :: skipped) ++ evs')%list.
      rewrite Hevs, <- !app_assoc. now destruct t.
    + exists c, served, name, skipped.
      split; [assumption|]. split; [assumption|]. now observe.
  - intros Hin. apply remote_events_In in Hin.
    exfalso. eapply (proj2 (dispatch_run_complete _ _ _ _ _ H2)). exact Hin.
Qed.

(* ------------------------------------------------------------------ *)
(** ** The top-level boundary *)

(** The [try] block never reports a failure and then throws. *)
Lemma thrown_without_report (w : World) (t : thrown) (tr : list event) :
  run_body w [] = (Throw t, tr) -> failures tr = [].
Proof.
  intros Hbody.
  destruct (run_cases w) as (c & tr' & Hcase & Hbody' & _).
  rewrite Hbody in Hbody'. injection Hbody' as <- <-.
  remember (Throw t) as c eqn:Hc.
  destruct Hcase; try discriminate; try reflexivity.
  - observe. now destruct (dispatch_run_quiet _ _ _ _ _ "updates" H2) as (_ & -> & _).
  - observe. now destruct (dispatch_run_quiet _ _ _ _ _ "updates" H2) as (_ & -> & _).
Qed.

(** Where an exception of the [try] block comes from: reading a required
    input, parsing [patterns], joining something that is not an array, the
    dispatch loop, or the summary write. *)
Lemma throw_sources (w : World) (t : thrown) (tr : list event) :
  run_body w [] = (Throw t, tr) ->
  supplied w "kind" = false \/
  supplied w "patterns" = false \/
  JSON_parse w (inputs w "patterns") = Rejected t \/
  (exists v, JSON_parse w (inputs w "patterns") = Resolved v /\
             Array_isArray v = false) \/
  (exists c names evs, dispatch_run c (inputs w "kind") names evs (Throw t)) \/
  (exists path data, writeFile w path data "a" = Some t).
Proof.
  intros Hbody.
  destruct (run_cases w) as (c & tr' & Hcase & Hbody' & _).
  rewrite Hbody in Hbody'. injection Hbody' as <- <-.
  remember (Throw t) as c eqn:Hc.
  destruct Hcase; try discriminate; auto.
  - injection Hc as <-. auto.
  - right; right; right; left. eauto.
  - injection Hc as <-. right; right; right; right; left. eauto.
  - right; right; right; right; right.
    revert Hc. unfold writeStepSummary.
    destruct (env w "GITHUB_STEP_SUMMARY") as [path|]; [|discriminate].
    destruct (truthy path); [|discriminate].
    unfold bind, emit. cbn.
    destruct (writeFile w path _ "a") eqn:Hwrite; [|discriminate].
    cbn. intros [= <-]. eauto.
Qed.

(** C9, as the code has it.  Whatever the [try] block of [run] throws,
    wherever it was raised, reaches the one [catch] clause.  When it is an
    [Error] the run is reported as failed with that error's message, and
    that is the only failure reported; when it is any other value nothing is
    reported. *)
Theorem catch_reports_errors_only (w : World) (t : thrown) (tr : list event) :
  run_body w [] = (Throw t, tr) ->
  run w = (tr ++ map SetFailed (reported t))%list /\
  failures (run w) = reported t.
Proof.
  intros Hbody.
  assert (Hrun : run w = (tr ++ map SetFailed (reported t))%list)
    by (rewrite run_caught, Hbody; now destruct t).
  split; [exact Hrun|].
  rewrite Hrun, failures_app, (thrown_without_report _ _ _ Hbody).
  now destruct t.
Qed.

(* ------------------------------------------------------------------ *)
(** ** [executeOne] *)

(** C7.  [executeOne] with kind ["stack"] issues the one call [DeployStack]
    with payload [{stack: name}]; with kind ["procedure"] the one call
    [RunProcedure] with payload [{procedure: name}]; it completes as that
    call settles.  With any other kind it throws an [Error] whose message
    ends with the kind it was given, and issues no call. *)
Theorem executeOne_by_kind (w : World) (c : client) (name : jsval)
  (tr : list event) :
  (let outcome := execute_and_poll w tr c "DeployStack" (JObj [("stack", name)]) in
   executeOne w c "stack" name tr =
   (match outcome with Resolved r => Normal r | Rejected t => Throw t end,
    tr ++ [Execute c "DeployStack" (JObj [("stack", name)]); Settle outcome])%list) /\
  (let outcome := execute_and_poll w tr c "RunProcedure" (JObj [("procedure", name)]) in
   executeOne w c "procedure" name tr =
   (match outcome with Resolved r => Normal r | Rejected t => Throw t end,
    tr ++ [Execute c "RunProcedure" (JObj [("procedure", name)]); Settle outcome])%list) /\
  (forall kind, kind <> "stack" -> kind <> "procedure" ->
     executeOne w c kind name tr =
     (Throw (ErrorObj ("Unsupported kind: " ++ kind)), tr)).
Proof.
  split; [|split].
  - apply executeOne_request. reflexivity.
  - apply executeOne_request. reflexivity.
  - intros kind Hs Hp. apply executeOne_unsupported, unsupported_request.
    intros [?|?]; contradiction.
Qed.

(* ------------------------------------------------------------------ *)
(** ** The result normalizer *)

Lemma has_find_prop (o : obj) (k : string) :
  has_prop o k = true <-> find_prop o k <> None.
Proof.
  induction o as [|[k' v] o IH]; cbn.
  - split; [discriminate|congruence].
  - destruct (k' =? k); cbn; [split; [discriminate|reflexivity]|exact IH].
Qed.

Lemma find_put_prop (o : obj) (k k' : string) (v : jsval) :
  find_prop (put_prop o k v) k' = if k =? k' then Some v else find_prop o k'.
Proof.
  induction o as [|[k0 v0] o IH]; cbn.
  - reflexivity.
  - destruct (String.eqb_spec k0 k) as [->|Hne]; cbn.
    + destruct (k =? k'); reflexivity.
    + rewrite IH. destruct (String.eqb_spec k0 k') as [->|Hne'];
        [|reflexivity].
      destruct (String.eqb_spec k k'); [congruence|reflexivity].
Qed.

Lemma find_set_prop (o : obj) (k k' : string) (v : jsval) :
  find_prop (set_prop o k v) k' =
  if k =? "__proto__" then find_prop o k'
  else if k =? k' then Some v else find_prop o k'.
Proof.
  unfold set_prop. destruct (k =? "__proto__"); [reflexivity|].
  apply find_put_prop.
Qed.

Lemma updateStatusMap_snoc (items : list UpdateItem) (item : UpdateItem) :
  updateStatusMap (items ++ [item]) =
  if hasOid item then status_step (updateStatusMap items) item
  else updateStatusMap items.
Proof.
  unfold updateStatusMap. rewrite filter_app. cbn [filter].
  destruct (hasOid item).
  - now rewrite fold_left_app.
  - now rewrite app_nil_r.
Qed.

Lemma spec_status_snoc (k : string) (items : list UpdateItem) (item : UpdateItem) :
  spec_status k (items ++ [item]) =
  if retained_as k item then Some (get_prop item "status")
  else spec_status k items.
Proof.
  unfold spec_status. rewrite filter_app, rev_app_distr. cbn [filter].
  destruct (retained_as k item); reflexivity.
Qed.

(** The mapping, key by key: the status of the last retained record with
    that identifier; [__proto__] never becomes a key. *)
Lemma status_map_lookup (items : list UpdateItem) (k : string) :
  find_prop (updateStatusMap items) k =
  if k =? "__proto__" then None else spec_status k items.
Proof.
  induction items as [|item items IH] using rev_ind.
  - cbn. now destruct (k =? "__proto__").
  - rewrite updateStatusMap_snoc, spec_status_snoc. unfold retained_as.
    destruct (hasOid item); cbn [andb]; [|exact IH].
    unfold status_step. rewrite find_set_prop, IH.
    destruct (String.eqb_spec (oid_of item) "__proto__") as [Hproto|Hproto].
    + destruct (k =? "__proto__") eqn:Hk; [reflexivity|].
      apply String.eqb_neq in Hk.
      destruct (String.eqb_spec (oid_of item) k); [congruence|reflexivity].
    + destruct (String.eqb_spec (oid_of item) k) as [Hk|Hk]; [|reflexivity].
      destruct (String.eqb_spec k "__proto__"); [congruence|reflexivity].
Qed.

Lemma spec_status_retained (k : string) (items : list UpdateItem) (v : jsval) :
  spec_status k items = Some v ->
  exists item, In item items /\ retained_as k item = true.
Proof.
  unfold spec_status.
  destruct (rev (filter (retained_as k) items)) as [|item rest] eqn:Hrev;
    [discriminate|].
  intros _. exists item.
  apply filter_In, in_rev. rewrite Hrev. now left.
Qed.

Lemma hasOid_inv (item : UpdateItem) :
  hasOid item = true ->
  has_prop item "operation" = true /\
  opt_chain (get_prop item "_id") "$oid" = JStr (oid_of item).
Proof.
  unfold hasOid, oid_of. intros [Hop Hid]%andb_prop. split; [exact Hop|].
  destruct (opt_chain _ _); try discriminate. reflexivity.
Qed.

(** The accumulation in the loop is the flattening of the specification,
    from any starting point. *)
Lemma fold_push_result (raw : list UpdateResult) (results : list UpdateItem) :
  fold_left push_result raw results = (results ++ spec_flatten raw)%list.
Proof.
  revert results. induction raw as [|r raw IH]; intros results.
  - cbn. now rewrite app_nil_r.
  - cbn [fold_left]. rewrite IH. unfold spec_flatten. cbn [map concat].
    destruct r; cbn [push_result items_of]; now rewrite <- app_assoc.
Qed.

(** Whatever mapping a run gives to the output [updates], it is the
    reduction of the flattened results the calls of that run resolved
    with. *)
Lemma run_output_is_status_map (w : World) (map : obj) :
  In (SetOutput "updates" (JObj map)) (run w) ->
  map = updateStatusMap (flatten (resolved_results (run w))).
Proof.
  intros Hin. apply outputs_In in Hin. revert Hin.
  destruct (run_cases w) as (c & tr & Hcase & _ & ->).
  destruct Hcase; observe; try (intros []; fail).
  - intros [Hv|[]]. discriminate.
  - destruct names; cbn.
    + intros [Hv|[Hv|[]]]; [discriminate|now injection Hv as <-].
    + intros [Hv|[]]. now injection Hv as <-.
  - destruct names; cbn; [intros [Hv|[]]; discriminate|intros []].
  - destruct (dispatch_run_quiet _ _ _ _ _ "updates" H2) as (-> & _).
    destruct names; cbn; [intros [Hv|[]]; discriminate|intros []].
  - destruct (dispatch_run_quiet _ _ _ _ _ "updates" H2) as (-> & _).
    rewrite H3. subst map0.
    destruct names; cbn.
    + intros [Hv|[Hv|[]]]; [discriminate|now injection Hv as <-].
    + intros [Hv|[]]. now injection Hv as <-.
Qed.

(** C2.  A key of the final mapping is the identifier of one of the
    flattened results, one that has an [operation] field and whose
    [_id.$oid] is a string; a value that fails either check leaves no trace
    in the mapping; and the mapping a run outputs is built this way from the
    results of its calls. *)
Theorem status_map_keys_are_valid :
  (forall (results : list UpdateItem) (k : string),
     has_prop (updateStatusMap results) k = true ->
     exists item, In item results /\
                  has_prop item "operation" = true /\
                  opt_chain (get_prop item "_id") "$oid" = JStr k) /\
  (forall (before after : list UpdateItem) (item : UpdateItem),
     hasOid item = false ->
     updateStatusMap (before ++ item :: after) = updateStatusMap (before ++ after)) /\
  (forall (w : World) (map : obj) (k : string),
     In (SetOutput "updates" (JObj map)) (run w) ->
     has_prop map k = true ->
     exists item, In item (flatten (resolved_results (run w))) /\
                  hasOid item = true /\
                  opt_chain (get_prop item "_id") "$oid" = JStr k).
Proof.
  assert (Hkeys : forall (results : list UpdateItem) (k : string),
     has_prop (updateStatusMap results) k = true ->
     exists item, In item results /\ hasOid item = true /\
                  opt_chain (get_prop item "_id") "$oid" = JStr k).
  { intros results k Hk. apply has_find_prop in Hk.
    rewrite status_map_lookup in Hk.
    destruct (k =? "__proto__"); [congruence|].
    destruct (spec_status k results) as [v|] eqn:Hs; [|congruence].
    destruct (spec_status_retained _ _ _ Hs) as (item & Hin & Hret).
    unfold retained_as in Hret. apply andb_prop in Hret as [Hoid Heq].
    apply String.eqb_eq in Heq. subst k.
    exists item. split; [exact Hin|]. split; [exact Hoid|].
    now apply hasOid_inv. }
  split; [|split].
  - intros results k Hk.
    destruct (Hkeys results k Hk) as (item & Hin & Hoid & Hid).
    exists item. split; [exact Hin|]. split; [|exact Hid].
    now apply hasOid_inv.
  - intros before after item Hno. unfold updateStatusMap.
    rewrite !filter_app. cbn [filter]. now rewrite Hno.
  - intros w map k Hout Hk.
    rewrite (run_output_is_status_map w map Hout) in Hk.
    now apply Hkeys.
Qed.

(** C8.  The results are accumulated as the specification flattens them:
    list-valued results expanded in place, order kept.  The mapping built
    from the flattened sequence gives each identifier the status of the last
    retained record that carries it, so a later duplicate overwrites an
    earlier one ([__proto__], which no assignment can create as a key, is
    the one identifier that gets no entry).  The mapping a run outputs is
    this normalization of the results its calls resolved with. *)
Theorem normalizer_last_write_wins :
  (forall raw : list UpdateResult, flatten raw = spec_flatten raw) /\
  (forall (items : list UpdateItem) (k : string),
     find_prop (updateStatusMap items) k =
     if k =? "__proto__" then None else spec_status k items) /\
  (forall (w : World) (map : obj),
     In (SetOutput "updates" (JObj map)) (run w) ->
     map = updateStatusMap (spec_flatten (resolved_results (run w)))).
Proof.
  split; [|split].
  - intros raw. unfold flatten. now rewrite fold_push_result.
  - exact status_map_lookup.
  - intros w map Hout. rewrite (run_output_is_status_map w map Hout).
    unfold flatten. now rewrite fold_push_result.
Qed.

(* ------------------------------------------------------------------ *)
(** ** The theorems at work on the scenarios *)

Import Scenarios.

Ltac decide_In := repeat (try (left; reflexivity); right).

Lemma empty_targets_witness :
  targets_are deploy_none [] /\
  dry_run deploy_none = false /\
  connected deploy_none the_client /\
  outputs "updates" (run deploy_none) = [JStr "Nothing to update here"; JObj []] /\
  remote_calls (run deploy_none) = [] /\
  final_output "updates" (run deploy_none) = Some (JObj []) /\
  failures (run deploy_none) = [].
Proof.
  assert (Ht : targets_are deploy_none []) by (repeat split; reflexivity).
  assert (Hd : dry_run deploy_none = false) by reflexivity.
  assert (Hc : connected deploy_none the_client) by (repeat split; reflexivity).
  destruct (empty_targets_overwrite_sentinel deploy_none the_client Ht Hd Hc)
    as (H1 & H2 & H3 & H4).
  repeat (split; [assumption|]).
  apply H4. intros path data _. reflexivity.
Defined.




Lemma two_stacks_witness :
  targets_are deploy_two [JStr "a"; JStr "b"] /\
  dry_run deploy_two = false /\
  connected deploy_two the_client /\
  supported (inputs deploy_two "kind") /\
  sequential the_client "stack" [JStr "a"; JStr "b"] (remote_events (run deploy_two)) /\
  remote_calls (run deploy_two) =
    [(the_client, "DeployStack", JObj [("stack", JStr "a")]);
     (the_client, "DeployStack", JObj [("stack", JStr "b")])].
Proof.
  assert (Ht : targets_are deploy_two [JStr "a"; JStr "b"])
    by (repeat split; reflexivity).
  assert (Hd : dry_run deploy_two = false) by reflexivity.
  assert (Hc : connected deploy_two the_client) by (repeat split; reflexivity).
  assert (Hk : supported (inputs deploy_two "kind")) by (left; reflexivity).
  destruct (calls_are_sequential deploy_two _ the_client Ht Hd Hc Hk)
    as (H1 & H2).
  repeat (split; [assumption|]).
  apply H2. intros t Hin. vm_compute in Hin.
  repeat (destruct Hin as [Hin|Hin]; [discriminate Hin|]). exact Hin.
Defined.

Lemma boom_witness :
  In (Settle (Rejected (ErrorObj "boom"))) (run boom_error) /\
  failures (run boom_error) = ["boom"] /\
  outputs "updates" (run boom_error) = [] /\
  summary_writes (run boom_error) = [] /\
  (exists tr,
     run boom_error =
     (tr ++ [Settle (Rejected (ErrorObj "boom")); SetFailed "boom"])%list) /\
  remote_calls (run boom_error) =
    [(the_client, "DeployStack", JObj [("stack", JStr "a")])].
Proof.
  assert (Hin : In (Settle (Rejected (ErrorObj "boom"))) (run boom_error))
    by (vm_compute; decide_In).
  destruct (rejection_aborts_run boom_error (ErrorObj "boom") Hin)
    as (H1 & H2 & H3 & H4 & _).
  repeat (split; [assumption|]). reflexivity.
Defined.

Lemma summary_failure_witness :
  fst (run_body disk_rejects_error []) =
    Throw (ErrorObj "EACCES: permission denied, open '/tmp/summary.md'") /\
  failures (run disk_rejects_error) =
    ["EACCES: permission denied, open '/tmp/summary.md'"].
Proof.
  split; [reflexivity|].
  apply (proj2 (catch_reports_errors_only disk_rejects_error
                  (ErrorObj "EACCES: permission denied, open '/tmp/summary.md'")
                  (snd (run_body disk_rejects_error [])) eq_refl)).
Defined.

Lemma executeOne_witness :
  remote_calls (snd (executeOne deploy_two the_client "stack" (JStr "my-stack") []))
    = [(the_client, "DeployStack", JObj [("stack", JStr "my-stack")])] /\
  remote_calls (snd (executeOne deploy_two the_client "procedure" (JStr "my-proc") []))
    = [(the_client, "RunProcedure", JObj [("procedure", JStr "my-proc")])] /\
  executeOne deploy_two the_client "service" (JStr "foo") [] =
    (Throw (ErrorObj "Unsupported kind: service"), []).
Proof.
  destruct (executeOne_by_kind deploy_two the_client (JStr "my-stack") [])
    as (H1 & _ & _).
  destruct (executeOne_by_kind deploy_two the_client (JStr "my-proc") [])
    as (_ & H2 & _).
  destruct (executeOne_by_kind deploy_two the_client (JStr "foo") [])
    as (_ & _ & H3).
  rewrite H1, H2. split; [reflexivity|]. split; [reflexivity|].
  apply H3; discriminate.
Defined.

Lemma status_map_keys_witness :
  has_prop (updateStatusMap [makeErr; makeUpdate "id1" "Complete"]) "id1" = true /\
  (exists item, In item [makeErr; makeUpdate "id1" "Complete"] /\
                has_prop item "operation" = true /\
                opt_chain (get_prop item "_id") "$oid" = JStr "id1") /\
  updateStatusMap ([] ++ makeErr :: [makeUpdate "id1" "Complete"]) =
  updateStatusMap ([] ++ [makeUpdate "id1" "Complete"]).
Proof.
  destruct status_map_keys_are_valid as (H1 & H2 & _).
  split; [reflexivity|]. split.
  - apply H1. reflexivity.
  - apply H2. reflexivity.
Defined.

Lemma last_write_wins_witness :
  flatten [One (makeUpdate "id1" "InProgress");
           Many [makeErr; makeUpdate "id2" "Complete"];
           One (makeUpdate "id1" "Complete")] =
    [makeUpdate "id1" "InProgress"; makeErr; makeUpdate "id2" "Complete";
     makeUpdate "id1" "Complete"] /\
  find_prop (updateStatusMap [makeUpdate "id1" "InProgress"; makeErr;
                              makeUpdate "id2" "Complete";
                              makeUpdate "id1" "Complete"]) "id1"
    = Some (JStr "Complete").
Proof.
  destruct normalizer_last_write_wins as (H1 & H2 & _).
  rewrite H1, H2. split; reflexivity.
Defined.

(** C3, as the specification words it, fails: in a run over two targets the
    first call rejects with the bare string ["boom"]; the run reports no
    failure. *)
Lemma rejection_with_string_is_swallowed :
  targets_are boom_string [JStr "a"; JStr "b"] /\
  In (Settle (Rejected (NonError (JStr "boom")))) (run boom_string) /\
  failures (run boom_string) = [].
Proof.
  split; [repeat split; reflexivity|].
  split; [vm_compute; decide_In|reflexivity].
Qed.

(** C9, as the specification words it, fails: the first remote call rejects
    with the bare string ["boom"]; the [try] block throws that value, it
    reaches the [catch] clause, and the run reports no failure. *)
Lemma thrown_value_is_not_reported :
  fst (run_body boom_string []) = Throw (NonError (JStr "boom")) /\
  failures (run boom_string) = [].
Proof.
  split; reflexivity.
Qed.




(** The three stages an [Error] can come from, each reported by the one
    [catch] clause: input parsing, dispatch, reporting. *)
Example parsing_error_reported :
  run dry_not_a_list =
  [SetOutput "updates" (JStr "Nothing to update here"); Info "Kind: stack";
   SetFailed "patterns.join is not a function"].
Proof. reflexivity. Qed.

Example dispatch_error_reported :
  failures (run deploy_service) = ["Unsupported kind: service"] /\
  remote_calls (run deploy_service) = [].
Proof. split; reflexivity. Qed.

Example reporting_error_reported :
  last (run disk_rejects_error) (Info "") =
  SetFailed "EACCES: permission denied, open '/tmp/summary.md'".
Proof. reflexivity. Qed.

(** The example of the specification: two stacks, two completed updates. *)
Example two_stacks_deployed :
  final_output "updates" (run deploy_two) =
    Some (JObj [("id-a", JStr "Complete"); ("id-b", JStr "Complete")]) /\
  failures (run deploy_two) = [].
Proof. split; reflexivity. Qed.

(* ------------------------------------------------------------------ *)
(** ** The run, once the loop is reached *)

(** With the inputs resolved, the dry-run flag off and the connection
    parameters present, the [try] block is the dispatch loop followed by the
    report. *)
Lemma run_body_connected (w : World) (names : list jsval) (c : client) :
  targets_are w names ->
  dry_run w = false ->
  connected w c ->
  run_body w [] =
  bind (dispatch w c (inputs w "kind") names [])
       (fun results =>
          bind (setOutput "updates" (JObj (updateStatusMap results)))
               (fun _ => writeStepSummary w (updateStatusMap results)))
       (preamble w names).
Proof.
  intros (Hk & Hp & Hparse) Hdry (H1 & H2 & H3 & H4 & H5 & H6).
  unfold run_body, getInput, info.
  rewrite Hk, Hp. cbn [andb negb]. rewrite !bind_ret, Hparse. cbn [await].
  rewrite bind_ret. cbn [Array_isArray negb orb elements patterns_join].
  assert (Hpre : forall B (k : unit -> M B),
    bind (if Nat.eqb (List.length names) 0
          then setOutput "updates" sentinel else ret tt) k []
    = k tt (if Nat.eqb (List.length names) 0
            then [SetOutput "updates" sentinel] else []))
    by (intros; destruct (Nat.eqb _ _); reflexivity).
  rewrite Hpre, bind_emit, bind_ret, bind_emit.
  rewrite <- app_assoc. cbn [app].
  change (_ ++ [Info _; Info _])%list with (preamble w names).
  fold (dry_run w). rewrite Hdry, !bind_ret.
  fold (komodoUrl w) (apiKey w) (apiSecret w).
  rewrite H1, H3, H5, H2, H4, H6. cbn [andb].
  destruct c; reflexivity.
Qed.

(* ------------------------------------------------------------------ *)
(** ** The summary sink *)

Lemma summary_writes_In (path data flag : string) (tr : list event) :
  In (WriteFile path data flag) tr -> In (path, data) (summary_writes tr).
Proof.
  induction tr as [|e tr IH]; [intros []|].
  intros [->|Hin]; [now left|].
  destruct e; cbn; auto.
Qed.

(** What [writeStepSummary] does, from an empty trace: nothing, or one write
    in append mode whose fate is its own. *)
Lemma summary_events (w : World) (map : obj) :
  (writeStepSummary w map [] = (Normal tt, []) /\ no_sink w) \/
  (exists path,
     env w "GITHUB_STEP_SUMMARY" = Some path /\ truthy path = true /\
     writeStepSummary w map [] =
     (match writeFile w path (summary_markdown map) "a" with
      | None => Normal tt
      | Some t => Throw t
      end, [WriteFile path (summary_markdown map) "a"])).
Proof.
  unfold writeStepSummary, no_sink.
  destruct (env w "GITHUB_STEP_SUMMARY") as [path|]; cbn; [|now left].
  destruct (truthy path) eqn:Hpath; [right|now left].
  exists path. split; [reflexivity|]. split; [exact Hpath|].
  unfold bind, emit. cbn.
  destruct (writeFile w path (summary_markdown map) "a"); reflexivity.
Qed.

(** A run that wrote to the sink: the write comes right after the output,
    and only what the write itself threw can follow. *)
Lemma run_with_write (w : World) (path data flag : string) :
  In (WriteFile path data flag) (run w) ->
  exists pre mapping,
    flag = "a" /\
    env w "GITHUB_STEP_SUMMARY" = Some path /\ truthy path = true /\
    data = summary_markdown mapping /\
    run w = (pre ++ SetOutput "updates" (JObj mapping) :: WriteFile path data "a"
                 :: List.map SetFailed
                      (match writeFile w path data "a" with
                       | Some t => reported t
                       | None => []
                       end))%list /\
    summary_writes pre = [] /\ failures pre = [].
Proof.
  intros Hin.
  destruct (run_cases w) as (out & tr & Hcase & _ & Hrun).
  rewrite Hrun in Hin |- *.
  destruct Hcase;
    try (apply summary_writes_In in Hin; revert Hin; observe;
         try (intros []; fail);
         match goal with
         | Hd : dispatch_run _ _ _ _ _ |- _ =>
             destruct (dispatch_run_quiet _ _ _ _ _ "updates" Hd) as (_ & _ & ->)
         end; intros []).
  destruct (dispatch_run_quiet _ _ _ _ _ "updates" H2) as (_ & Q2 & Q3).
  destruct (summary_events w map) as [(Heq & _)|(path' & Henv & Hpath & Heq)];
    rewrite Heq in *; cbn [fst snd caught] in *.
  - apply summary_writes_In in Hin. revert Hin. observe. rewrite Q3.
    intros [].
  - assert (Hw : WriteFile path data flag = WriteFile path' (summary_markdown map) "a").
    { apply in_app_or in Hin as [Hin|Hin].
      - apply in_app_or in Hin as [Hin|Hin].
        + apply summary_writes_In in Hin. revert Hin. observe. intros [].
        + apply in_app_or in Hin as [Hin|Hin].
          * apply summary_writes_In in Hin. rewrite Q3 in Hin. destruct Hin.
          * destruct Hin as [Hin|[Hin|[]]]; [discriminate|now symmetry].
      - destruct (writeFile w path' _ "a") as [[]|]; cbn in Hin;
          intuition discriminate. }
    injection Hw as -> -> ->.
    exists (preamble w names ++ evs)%list, map.
    repeat split; try assumption.
    + rewrite <- !app_assoc. cbn [app]. do 2 f_equal. f_equal. f_equal.
      now destruct (writeFile w path' _ "a") as [[]|].
    + observe. exact Q3.
    + observe. exact Q2.
Qed.

(** X1.  Without a summary sink ([GITHUB_STEP_SUMMARY] unset or empty)
    [writeStepSummary] returns at once, leaving the trace as it found it,
    and no run writes anything. *)
Theorem no_sink_no_write (w : World) :
  no_sink w ->
  (forall map tr, writeStepSummary w map tr = (Normal tt, tr)) /\
  summary_writes (run w) = [].
Proof.
  intros Hno. split.
  - intros map tr. rewrite writeStepSummary_frame.
    destruct (summary_events w map) as [(-> & _)|(path & Henv & Hpath & _)].
    + cbn. now rewrite app_nil_r.
    + unfold no_sink in Hno. rewrite Henv in Hno. cbn in Hno. congruence.
  - destruct (summary_writes (run w)) as [|[path data] rest] eqn:Hw;
      [reflexivity|exfalso].
    assert (Hin : exists flag, In (WriteFile path data flag) (run w)).
    { assert (H : In (path, data) (summary_writes (run w)))
        by (rewrite Hw; now left).
      clear Hw. induction (run w) as [|[] tr IH]; cbn in H; try tauto;
        try (destruct (IH H) as (flag & ?); exists flag; now right).
      destruct H as [H|H].
      - injection H as -> ->. eexists. now left.
      - destruct (IH H) as (flag' & ?). exists flag'. now right. }
    destruct Hin as (flag & Hin).
    destruct (run_with_write _ _ _ _ Hin) as (_ & _ & _ & Henv & Hpath & _).
    unfold no_sink in Hno. rewrite Henv in Hno. cbn in Hno. congruence.
Qed.

Lemma failures_reported (l : list string) :
  failures (List.map SetFailed l) = l.
Proof.
  induction l as [|m l IH]; cbn; now rewrite ?IH.
Qed.

Lemma quiet_reported (l : list string) (name : string) :
  outputs name (List.map SetFailed l) = [] /\
  summary_writes (List.map SetFailed l) = [].
Proof.
  induction l as [|m l IH]; cbn; auto.
Qed.

(** X2.  Whatever a run writes to the sink, it writes once, in append mode,
    to the path [GITHUB_STEP_SUMMARY] names, right after it has set the
    output [updates]; and what it writes is the table rendered from the very
    mapping it has just output, which is the value the output is left
    with. *)
Theorem summary_follows_output (w : World) (path data flag : string) :
  In (WriteFile path data flag) (run w) ->
  flag = "a" /\
  env w "GITHUB_STEP_SUMMARY" = Some path /\
  summary_writes (run w) = [(path, data)] /\
  exists mapping,
    data = summary_markdown mapping /\
    final_output "updates" (run w) = Some (JObj mapping) /\
    exists pre post,
      run w = (pre ++ SetOutput "updates" (JObj mapping)
                   :: WriteFile path data "a" :: post)%list.
Proof.
  intros Hin.
  destruct (run_with_write _ _ _ _ Hin)
    as (pre & mapping & -> & Henv & _ & -> & Hrun & Hw & _).
  set (tail := match writeFile w path (summary_markdown mapping) "a" with
               | Some t => reported t
               | None => []
               end) in Hrun.
  destruct (quiet_reported tail "updates") as (T1 & T2).
  repeat split; try assumption.
  - rewrite Hrun, summary_writes_app, Hw. cbn. now rewrite T2.
  - exists mapping. split; [reflexivity|]. split.
    + apply (final_output_last _ _ (outputs "updates" pre)).
      rewrite Hrun, outputs_app. cbn. now rewrite T1.
    + now exists pre, (List.map SetFailed tail).
Qed.

(** X3.  In a run that wrote to the sink, the write is the only thing that
    can have failed: the failures reported are those of the write, none when
    it went through, its message when it rejected with an [Error]; either
    way the output [updates] keeps the mapping it was given before the
    write. *)
Theorem write_decides_failure (w : World) (path data flag : string) :
  In (WriteFile path data flag) (run w) ->
  failures (run w) =
    match writeFile w path data "a" with
    | Some t => reported t
    | None => []
    end /\
  exists mapping,
    data = summary_markdown mapping /\
    final_output "updates" (run w) = Some (JObj mapping).
Proof.
  intros Hin.
  destruct (run_with_write _ _ _ _ Hin)
    as (pre & mapping & -> & Henv & _ & -> & Hrun & _ & Hf).
  set (tail := match writeFile w path (summary_markdown mapping) "a" with
               | Some t => reported t
               | None => []
               end) in *.
  destruct (quiet_reported tail "updates") as (T1 & _).
  split.
  - rewrite Hrun, failures_app, Hf. cbn. apply failures_reported.
  - exists mapping. split; [reflexivity|].
    apply (final_output_last _ _ (outputs "updates" pre)).
    rewrite Hrun, outputs_app. cbn. now rewrite T1.
Qed.

(* ------------------------------------------------------------------ *)
(** ** What a run reports *)

(** X4.  A run reports at most one failure. *)
Theorem at_most_one_failure (w : World) :
  List.length (failures (run w)) <= 1.
Proof.
  destruct (run_cases w) as (out & tr & Hcase & Hbody & ->).
  rewrite failures_app, length_app.
  rewrite (surjective_pairing (run_body w [])) in Hbody.
  destruct out as [[]|t].
  - assert (Hlen : List.length (failures tr) <= 1).
    { destruct Hcase; observe; cbn; try lia;
        destruct (dispatch_run_quiet _ _ _ _ _ "updates" H2) as (_ & -> & _);
        cbn; lia. }
    cbn. lia.
  - rewrite (thrown_without_report w t tr).
    + destruct t; cbn; lia.
    + now destruct (run_body w []).
Qed.

(** X5.  The sentinel string is never what a successful run leaves in the
    output [updates]: when it is the final value, a failure was reported
    (the target list was not an array, or it was empty and a connection
    parameter was missing). *)
Theorem sentinel_left_only_by_failure (w : World) :
  final_output "updates" (run w) = Some (JStr "Nothing to update here") ->
  failures (run w) <> [].
Proof.
  destruct (run_cases w) as (out & tr & Hcase & _ & ->).
  unfold final_output.
  destruct Hcase; observe; cbn; try discriminate.
  - destruct names; discriminate.
  - destruct (dispatch_run_quiet _ _ _ _ _ "updates" H2) as (-> & _).
    destruct names; [inversion H2|discriminate].
  - destruct (dispatch_run_quiet _ _ _ _ _ "updates" H2) as (-> & _).
    destruct names; discriminate.
Qed.

Lemma dispatch_run_no_output (c : client) (kind : string) (names : list jsval)
  (evs : list event) (out : completion (list UpdateResult))
  (name : string) (value : jsval) :
  dispatch_run c kind names evs out -> ~ In (SetOutput name value) evs.
Proof.
  intros Hrun Hin. apply outputs_In in Hin.
  destruct (dispatch_run_quiet _ _ _ _ _ name Hrun) as (Q & _).
  now rewrite Q in Hin.
Qed.

(** X6.  [updates] is the only output a run ever sets, at most twice, and
    only to the sentinel string or to a mapping. *)
Theorem only_updates_is_output (w : World) (name : string) (value : jsval) :
  In (SetOutput name value) (run w) ->
  name = "updates" /\
  (value = JStr "Nothing to update here" \/ exists mapping, value = JObj mapping) /\
  List.length (outputs "updates" (run w)) <= 2.
Proof.
  intros Hin.
  destruct (run_cases w) as (out & tr & Hcase & _ & Hrun).
  assert (Hpre : forall names,
    In (SetOutput name value) (preamble w names) ->
    name = "updates" /\ value = sentinel).
  { intros names. unfold preamble. destruct (Nat.eqb _ _); cbn;
      intuition (try discriminate); congruence. }
  assert (Hcaught : forall c, ~ In (SetOutput name value) (caught c))
    by (intros [|[]]; cbn; intuition discriminate).
  assert (Hsum : forall mapping,
    ~ In (SetOutput name value) (snd (writeStepSummary w mapping []))).
  { intros mapping H. apply outputs_In in H.
    destruct (summary_quiet w mapping name) as (_ & _ & _ & Q & _).
    cbn zeta in Q. now rewrite Q in H. }
  assert (Hlen : forall names,
    List.length (outputs "updates" (preamble w names)) <= 1)
    by (intros names; rewrite preamble_outputs; destruct names; cbn; lia).
  rewrite Hrun in Hin |- *. apply in_app_or in Hin as [Hin|Hin];
    [|now apply Hcaught in Hin].
  destruct Hcase; observe.
  - destruct Hin.
  - destruct Hin.
  - destruct Hin.
  - destruct Hin as [Hin|[Hin|[]]]; [|discriminate].
    injection Hin as <- <-. cbn. auto.
  - apply in_app_or in Hin as [Hin|[Hin|[Hin|[]]]]; try discriminate.
    + destruct (Hpre _ Hin) as (-> & ->). specialize (Hlen names).
      rewrite length_app. cbn. split; [reflexivity|]. split; [now left|].
      rewrite preamble_outputs in *. lia.
    + injection Hin as <- <-. specialize (Hlen names).
      rewrite length_app. cbn. split; [reflexivity|]. split; [right; eauto|].
      rewrite preamble_outputs in *. lia.
  - apply in_app_or in Hin as [Hin|[Hin|[]]]; try discriminate.
    destruct (Hpre _ Hin) as (-> & ->). specialize (Hlen names).
    rewrite preamble_outputs in *. split; [reflexivity|]. split; [now left|].
    lia.
  - destruct (dispatch_run_quiet _ _ _ _ _ "updates" H2) as (-> & _).
    apply in_app_or in Hin as [Hin|Hin].
    + destruct (Hpre _ Hin) as (-> & ->). specialize (Hlen names).
      rewrite preamble_outputs in *. split; [reflexivity|].
      split; [now left|]. rewrite app_nil_r. lia.
    + now apply (dispatch_run_no_output _ _ _ _ _ name value H2) in Hin.
  - destruct (dispatch_run_quiet _ _ _ _ _ "updates" H2) as (-> & _).
    specialize (Hlen names). rewrite preamble_outputs in *.
    assert (Hl : List.length
                   (match names with [] => [sentinel] | _ :: _ => [] end
                    ++ [JObj map])%list <= 2)
      by (rewrite length_app; cbn; lia).
    apply in_app_or in Hin as [Hin|Hin].
    { destruct (Hpre _ Hin) as (-> & ->). auto. }
    apply in_app_or in Hin as [Hin|Hin].
    { now apply (dispatch_run_no_output _ _ _ _ _ name value H2) in Hin. }
    destruct Hin as [Hin|Hin].
    { injection Hin as <- <-. split; [reflexivity|]. split; [right; eauto|].
      exact Hl. }
    now apply Hsum in Hin.
Qed.

(* ------------------------------------------------------------------ *)
(** ** The remote calls of a run *)

Lemma dispatch_run_calls (c : client) (kind : string) (names : list jsval)
  (evs : list event) (out : completion (list UpdateResult))
  (c' : client) (operation : string) (payload : jsval) :
  dispatch_run c kind names evs out ->
  In (c', operation, payload) (remote_calls evs) ->
  c' = c /\
  exists name, In name names /\ request_of kind name = Some (operation, payload).
Proof.
  induction 1; cbn.
  - intros [].
  - intros [].
  - intros [Heq|[]]. injection Heq as <- <- <-. split; [reflexivity|].
    exists name. split; [now left|assumption].
  - intros [Heq|Hin].
    + injection Heq as <- <- <-. split; [reflexivity|].
      exists name. split; [now left|assumption].
    + destruct (IHdispatch_run Hin) as (-> & name' & Hin' & Hrq).
      split; [reflexivity|]. exists name'. split; [now right|assumption].
Qed.

(** A remote call only happens in a run that reached the loop, and is one of
    the calls of the loop. *)
Lemma run_call_shape (w : World) (c : client) (operation : string)
  (payload : jsval) :
  In (c, operation, payload) (remote_calls (run w)) ->
  dry_run w = false /\ connected w c /\
  exists names name,
    targets_are w names /\ In name names /\
    request_of (inputs w "kind") name = Some (operation, payload).
Proof.
  destruct (run_cases w) as (out & tr & Hcase & _ & ->).
  destruct Hcase; observe; try (intros []; fail); intros Hin;
    destruct (dispatch_run_calls _ _ _ _ _ _ _ _ H2 Hin)
      as (-> & name & Hname & Hrq);
    (split; [assumption|]); (split; [assumption|]);
    exists names, name; auto.
Qed.

(** X7.  Every remote call a run issues is the call [executeOne] makes for
    one of the targets listed in [patterns], [DeployStack] on a stack or
    [RunProcedure] on a procedure according to [kind]; and a run issues
    calls only when it is not a dry run and [kind] is one of the two kinds
    it supports. *)
Theorem every_call_is_for_a_target (w : World) (c : client)
  (operation : string) (payload : jsval) :
  In (c, operation, payload) (remote_calls (run w)) ->
  dry_run w = false /\
  supported (inputs w "kind") /\
  exists names name,
    targets_are w names /\ In name names /\
    ((inputs w "kind" = "stack" /\ operation = "DeployStack" /\
      payload = JObj [("stack", name)]) \/
     (inputs w "kind" = "procedure" /\ operation = "RunProcedure" /\
      payload = JObj [("procedure", name)])).
Proof.
  intros Hin.
  destruct (run_call_shape _ _ _ _ Hin)
    as (Hdry & _ & names & name & Ht & Hname & Hrq).
  split; [exact Hdry|]. split; [eapply request_supported; exact Hrq|].
  exists names, name. split; [exact Ht|]. split; [exact Hname|].
  unfold request_of in Hrq.
  destruct (String.eqb_spec (inputs w "kind") "stack") as [Hs|_].
  - injection Hrq as <- <-. left. auto.
  - destruct (String.eqb_spec (inputs w "kind") "procedure") as [Hp|_];
      [|discriminate].
    injection Hrq as <- <-. right. auto.
Qed.

(** X8.  The client every remote call goes through is built from the
    connection parameters resolved field by field: the workflow input when
    it is not empty, whatever the environment says; the environment
    variable only when the input is empty. *)
Theorem input_overrides_environment (w : World) (c : client)
  (operation : string) (payload : jsval) :
  In (c, operation, payload) (remote_calls (run w)) ->
  (if truthy (inputs w "komodo-url")
   then client_url c = inputs w "komodo-url"
   else env w "KOMODO_URL" = Some (client_url c)) /\
  (if truthy (inputs w "api-key")
   then client_key c = inputs w "api-key"
   else env w "KOMODO_API_KEY" = Some (client_key c)) /\
  (if truthy (inputs w "api-secret")
   then client_secret c = inputs w "api-secret"
   else env w "KOMODO_API_SECRET" = Some (client_secret c)).
Proof.
  intros Hin.
  destruct (run_call_shape _ _ _ _ Hin)
    as (_ & (Hu & _ & Hk & _ & Hs & _) & _).
  unfold komodoUrl, apiKey, apiSecret, or_else in *.
  repeat split.
  - destruct (truthy (inputs w "komodo-url")); congruence.
  - destruct (truthy (inputs w "api-key")); congruence.
  - destruct (truthy (inputs w "api-secret")); congruence.
Qed.

(* ------------------------------------------------------------------ *)
(** ** Inputs the action cannot use *)

(** X9.  A kind other than ["stack"] and ["procedure"] is found out only
    when the first target is dispatched: the run logs the launch of that
    target, issues no call, and fails with the message naming the kind;
    nothing is output and nothing is written to the summary sink. *)
Theorem unsupported_kind_fails_at_first_target (w : World) (name : jsval)
  (rest : list jsval) (c : client) :
  targets_are w (name :: rest) ->
  dry_run w = false ->
  connected w c ->
  ~ supported (inputs w "kind") ->
  run w =
  (preamble w (name :: rest) ++
   [launch (inputs w "kind") name;
    SetFailed ("Unsupported kind: " ++ inputs w "kind")])%list /\
  remote_calls (run w) = [] /\
  outputs "updates" (run w) = [] /\
  summary_writes (run w) = [].
Proof.
  intros Ht Hdry Hc Hk.
  assert (Hrun : run w =
    (preamble w (name :: rest) ++
     [launch (inputs w "kind") name;
      SetFailed ("Unsupported kind: " ++ inputs w "kind")])%list).
  { rewrite run_caught, (run_body_connected _ _ _ Ht Hdry Hc), bind_run.
    rewrite (dispatch_unsupported _ _ _ _ _ _ _
               (unsupported_request _ name Hk)).
    cbn [fst snd caught]. now rewrite <- app_assoc. }
  split; [exact Hrun|]. rewrite Hrun. unfold launch.
  repeat split; now observe.
Qed.

(** X10.  When [JSON.parse] rejects the [patterns] input, the run does
    nothing but report what was thrown: no log line, no output, no call, no
    summary; and this whatever the dry-run flag and the connection
    parameters are. *)
Theorem unparsable_patterns_only_fail (w : World) (t : thrown) :
  supplied w "kind" = true ->
  supplied w "patterns" = true ->
  JSON_parse w (inputs w "patterns") = Rejected t ->
  run w = List.map SetFailed (reported t).
Proof.
  intros Hk Hp Hparse.
  rewrite run_caught. unfold run_body, getInput.
  rewrite Hk, Hp. cbn [andb negb]. rewrite !bind_ret, Hparse. cbn [await].
  rewrite bind_throw. now destruct t.
Qed.

(** X11.  When [patterns] parses to anything but an array (an object, a
    string, a number, [null]), the run sets the output [updates] to the
    sentinel string, logs the kind, and fails with one [TypeError] raised by
    the call to [join]; it issues no call and writes no summary, dry run or
    not. *)
Theorem patterns_not_a_list_fail (w : World) (v : jsval) :
  supplied w "kind" = true ->
  supplied w "patterns" = true ->
  JSON_parse w (inputs w "patterns") = Resolved v ->
  Array_isArray v = false ->
  run w =
  [SetOutput "updates" (JStr "Nothing to update here");
   Info ("Kind: " ++ inputs w "kind");
   SetFailed (join_failure v)].
Proof.
  intros Hk Hp Hparse Harr.
  rewrite run_caught. unfold run_body, getInput, info, setOutput.
  rewrite Hk, Hp. cbn [andb negb]. rewrite !bind_ret, Hparse. cbn [await].
  rewrite bind_ret, Harr. cbn [negb orb]. rewrite !bind_emit.
  replace (patterns_join v) with (@throw string (ErrorObj (join_failure v)))
    by (destruct v; try reflexivity; discriminate).
  rewrite bind_throw. reflexivity.
Qed.

(* ------------------------------------------------------------------ *)
(** ** The run that goes well *)

Lemma dispatch_resolves (w : World) (c : client) (kind : string)
  (names : list jsval) :
  always_resolves w ->
  supported kind ->
  forall (results : list UpdateItem) (tr : list event),
  exists evs raw,
    dispatch_run c kind names evs (Normal raw) /\
    List.length raw = List.length names /\
    dispatch w c kind names results tr =
    (Normal (fold_left push_result raw results), tr ++ evs)%list.
Proof.
  intros Hall Hk. induction names as [|name rest IH]; intros results tr.
  - exists [], []. split; [constructor|]. split; [reflexivity|].
    rewrite dispatch_nil, app_nil_r. reflexivity.
  - destruct (supported_request kind name Hk) as (operation & payload & Hrq).
    destruct (Hall (tr ++ [launch kind name])%list c operation payload)
      as (r & Hr).
    rewrite (dispatch_resolved _ _ _ _ _ _ _ _ _ _ Hrq Hr).
    destruct (IH (push_result results r)
                 (tr ++ [launch kind name; Execute c operation payload;
                         Settle (Resolved r)])%list)
      as (evs & raw & Hrun & Hlen & ->).
    exists (launch kind name :: Execute c operation payload
            :: Settle (Resolved r) :: evs), (r :: raw).
    split; [exact (dr_resolved _ _ _ _ _ _ _ _ _ Hrq Hrun)|].
    split; [cbn; now rewrite Hlen|].
    now rewrite <- app_assoc.
Qed.

(** X12.  When the inputs resolve, the kind is supported, the connection
    parameters are present, the server resolves every call and the summary
    sink takes the append, a run that is not a dry run succeeds: it issues
    exactly one call per target, in order, collects one result per call, and
    leaves the output [updates] set to the mapping built from all of
    them. *)
Theorem all_resolved_run_succeeds (w : World) (names : list jsval) (c : client) :
  targets_are w names ->
  dry_run w = false ->
  connected w c ->
  supported (inputs w "kind") ->
  always_resolves w ->
  sink_accepts w ->
  failures (run w) = [] /\
  remote_calls (run w) = calls_of c (inputs w "kind") names /\
  List.length (resolved_results (run w)) = List.length names /\
  final_output "updates" (run w) =
    Some (JObj (updateStatusMap (spec_flatten (resolved_results (run w))))).
Proof.
  intros Ht Hdry Hc Hk Hall Hsink.
  destruct (dispatch_resolves w c (inputs w "kind") names Hall Hk []
              (preamble w names)) as (evs & raw & Hrun & Hlen & Hd).
  pose proof (resolved_results_run _ _ _ _ _ Hrun) as Hraw.
  destruct (dispatch_run_complete _ _ _ _ _ Hrun) as (Hcalls & _).
  destruct (dispatch_run_quiet _ _ _ _ _ "updates" Hrun) as (Q1 & Q2 & _).
  assert (Heq : run w =
    (preamble w names ++ evs ++
     SetOutput "updates" (JObj (updateStatusMap (flatten raw)))
     :: snd (writeStepSummary w (updateStatusMap (flatten raw)) []))%list).
  { rewrite run_caught, (run_body_connected _ _ _ Ht Hdry Hc), bind_run, Hd.
    unfold setOutput. rewrite bind_emit, writeStepSummary_frame.
    cbn [fst snd]. rewrite (summary_accepted _ _ Hsink). cbn [caught].
    now rewrite app_nil_r, <- !app_assoc. }
  assert (Hres : resolved_results (run w) = raw)
    by (rewrite Heq; do 2 observe; exact Hraw).
  repeat split.
  - rewrite Heq. do 2 observe. exact Q2.
  - rewrite Heq. do 2 observe. exact Hcalls.
  - now rewrite Hres.
  - rewrite Hres.
    apply (final_output_last _ _ (outputs "updates" (preamble w names))).
    rewrite Heq. do 2 observe. rewrite Q1. cbn [app].
    unfold flatten. now rewrite fold_push_result.
Qed.

(* ------------------------------------------------------------------ *)
(** ** The mapping and its table *)

Lemma has_prop_keys (o : obj) (k : string) :
  has_prop o k = true <-> In k (keys o).
Proof.
  unfold keys. induction o as [|[k' v] o IH]; cbn.
  - split; [discriminate|intros []].
  - destruct (String.eqb_spec k' k) as [->|Hne]; cbn.
    + split; auto.
    + rewrite IH. split; [auto|]. intros [Heq|Hin]; [contradiction|exact Hin].
Qed.

Lemma put_prop_present (o : obj) (k : string) (v : jsval) :
  has_prop o k = true -> keys (put_prop o k v) = keys o.
Proof.
  unfold keys. induction o as [|[k' v'] o IH]; cbn; [discriminate|].
  destruct (String.eqb_spec k' k) as [->|Hne]; cbn; [reflexivity|].
  intros H. f_equal. now apply IH.
Qed.

Lemma put_prop_fresh (o : obj) (k : string) (v : jsval) :
  has_prop o k = false -> put_prop o k v = (o ++ [(k, v)])%list.
Proof.
  induction o as [|[k' v'] o IH]; cbn; [reflexivity|].
  destruct (k' =? k); cbn; [discriminate|].
  intros H. now rewrite IH.
Qed.

Lemma set_prop_keys (o : obj) (k : string) (v : jsval) :
  NoDup (keys o) ->
  NoDup (keys (set_prop o k v)) /\
  List.length (set_prop o k v) <= S (List.length o).
Proof.
  intros Hnd. unfold set_prop.
  destruct (k =? "__proto__"); [split; [exact Hnd|lia]|].
  destruct (has_prop o k) eqn:Hk.
  - split; [now rewrite put_prop_present|].
    pose proof (put_prop_present o k v Hk) as Hkeys.
    apply (f_equal (@List.length string)) in Hkeys.
    unfold keys in Hkeys. rewrite !length_map in Hkeys. lia.
  - rewrite (put_prop_fresh _ _ _ Hk). split.
    + unfold keys. rewrite map_app. cbn.
      apply NoDup_app; [exact Hnd|repeat constructor; intros []|].
      intros k' Hin [<-|[]]. apply has_prop_keys in Hin. congruence.
    + rewrite length_app. cbn. lia.
Qed.

(** X13.  The mapping never holds an identifier twice, however many records
    carry it, and has at most one entry per retained record. *)
Theorem status_map_keys_distinct (items : list UpdateItem) :
  NoDup (keys (updateStatusMap items)) /\
  List.length (updateStatusMap items) <= List.length (filter hasOid items).
Proof.
  unfold updateStatusMap.
  induction (filter hasOid items) as [|update l IH] using rev_ind.
  - cbn. split; [constructor|lia].
  - rewrite fold_left_app, length_app. cbn.
    destruct IH as (Hnd & Hlen). unfold status_step at 1 3.
    destruct (set_prop_keys (fold_left status_step l []) (oid_of update)
                (get_prop update "status") Hnd) as (Hnd' & Hlen').
    split; [exact Hnd'|lia].
Qed.

Lemma fold_status_fresh (l : list UpdateItem) :
  forall acc : obj,
    NoDup (keys acc ++ List.map oid_of l) ->
    (forall update, In update l -> oid_of update <> "__proto__") ->
    fold_left status_step l acc = (acc ++ List.map entry_of l)%list.
Proof.
  induction l as [|update l IH]; intros acc Hnd Hproto.
  - cbn. now rewrite app_nil_r.
  - cbn [fold_left List.map]. unfold status_step at 2, set_prop.
    destruct (String.eqb_spec (oid_of update) "__proto__") as [Hp|_];
      [exfalso; apply (Hproto update); [now left|exact Hp]|].
    assert (Hfresh : has_prop acc (oid_of update) = false).
    { destruct (has_prop acc (oid_of update)) eqn:Hk; [|reflexivity].
      apply has_prop_keys in Hk. exfalso.
      cbn in Hnd. apply NoDup_remove_2 in Hnd. apply Hnd.
      apply in_or_app. now left. }
    rewrite (put_prop_fresh _ _ _ Hfresh), IH.
    + now rewrite <- app_assoc.
    + unfold keys in *. rewrite map_app. cbn. rewrite <- app_assoc. exact Hnd.
    + intros u Hu. apply Hproto. now right.
Qed.

Lemma append_assoc (a b c : string) : ((a ++ b) ++ c = a ++ (b ++ c))%string.
Proof.
  induction a as [|x a IH]; cbn; [reflexivity|now rewrite IH].
Qed.

Lemma append_empty (a : string) : (a ++ "" = a)%string.
Proof.
  induction a as [|x a IH]; cbn; [reflexivity|now rewrite IH].
Qed.

Lemma fold_rows (entries : list (string * jsval)) (text : string) :
  fold_left (fun markdown entry => markdown ++ summary_row entry) entries text
  = (text ++ rows_text entries)%string.
Proof.
  revert text. induction entries as [|entry rest IH]; intros text; cbn.
  - now rewrite append_empty.
  - now rewrite IH, append_assoc.
Qed.

Lemma insert_index_perm (e : N * (string * jsval))
  (l : list (N * (string * jsval))) :
  Permutation (insert_index e l) (e :: l).
Proof.
  induction l as [|e' l IH]; cbn; [reflexivity|].
  destruct (fst e <=? fst e')%N; [reflexivity|].
  rewrite IH. apply perm_swap.
Qed.

Lemma Object_entries_named (o : obj) :
  (forall k, In k (keys o) -> array_index k = None) ->
  Object_entries o = o.
Proof.
  unfold Object_entries. induction o as [|[k v] o IH]; cbn; [reflexivity|].
  intros Hk. rewrite (Hk k (or_introl eq_refl)).
  assert (Ho : forall k', In k' (keys o) -> array_index k' = None)
    by (intros k' Hin; apply Hk; now right).
  specialize (IH Ho).
  destruct (index_props o) as [|e l] eqn:Hi.
  - cbn in *. now rewrite IH.
  - exfalso. clear - Hi Ho.
    assert (Hin : In (fst (snd e)) (keys o) /\ array_index (fst (snd e)) <> None).
    { assert (He : In e (index_props o)) by (rewrite Hi; now left).
      clear Hi. induction o as [|[k v] o IH]; cbn in He; [destruct He|].
      destruct (array_index k) as [n|] eqn:Hn.
      - apply (Permutation_in _ (insert_index_perm _ _)) in He.
        destruct He as [<-|He].
        + cbn. split; [now left|congruence].
        + destruct IH as (H1 & H2); [intros; apply Ho; now right|exact He|].
          split; [now right|exact H2].
      - destruct IH as (H1 & H2); [intros; apply Ho; now right|exact He|].
        split; [now right|exact H2]. }
    destruct Hin as (Hin & Hne). now apply Ho in Hin.
Qed.

(** X14.  When the retained records carry pairwise distinct identifiers,
    none of them [__proto__] or an array index, the entries of the mapping,
    in the order [Object.entries] enumerates them, are exactly one per
    retained record, identifier and status, in the order of the records. *)
Theorem distinct_ids_keep_record_order (items : list UpdateItem) :
  NoDup (List.map oid_of (filter hasOid items)) ->
  (forall update, In update (filter hasOid items) ->
     oid_of update <> "__proto__" /\ array_index (oid_of update) = None) ->
  Object_entries (updateStatusMap items) =
  List.map entry_of (filter hasOid items).
Proof.
  intros Hnd Hids. unfold updateStatusMap.
  rewrite fold_status_fresh; [|exact Hnd|intros u Hu; now apply Hids].
  cbn [app]. apply Object_entries_named.
  intros k Hk. unfold keys in Hk. rewrite map_map in Hk.
  apply in_map_iff in Hk as (u & <- & Hu). cbn. now apply Hids.
Qed.

(** X16.  From the results to the table: when the retained records carry
    pairwise distinct identifiers, none of them [__proto__] or an array
    index, the table lists them in the order the calls returned them, one
    row per record. *)
Theorem summary_rows_in_record_order (items : list UpdateItem) :
  NoDup (List.map oid_of (filter hasOid items)) ->
  (forall update, In update (filter hasOid items) ->
     oid_of update <> "__proto__" /\ array_index (oid_of update) = None) ->
  summary_markdown (updateStatusMap items) =
  (summary_header ++ rows_text (List.map entry_of (filter hasOid items)))%string.
Proof.
  intros Hnd Hids. unfold summary_markdown, updateStatusMap.
  rewrite fold_status_fresh; [|exact Hnd|intros u Hu; now apply Hids].
  cbn [app]. rewrite Object_entries_named; [apply fold_rows|].
  intros k Hk. unfold keys in Hk. rewrite map_map in Hk.
  apply in_map_iff in Hk as (u & <- & Hu). cbn. now apply Hids.
Qed.

(* ------------------------------------------------------------------ *)
(** ** Inputs that stop a run before the loop *)

(** X18.  An empty target list does not spare the connection parameters:
    when one is absent and the run is not a dry run, the run sets the output
    [updates] to the sentinel string, logs the kind and the empty target
    line, and fails with the configuration message, which leaves the
    sentinel as the final output. *)
Theorem empty_list_still_needs_credentials (w : World) :
  targets_are w [] ->
  dry_run w = false ->
  disconnected w ->
  run w =
  [SetOutput "updates" (JStr "Nothing to update here");
   Info ("Kind: " ++ inputs w "kind"); Info "Targets: ";
   SetFailed config_error].
Proof.
  intros Ht Hdry Hd.
  pose proof Ht as (Hk & Hp & Hparse).
  destruct (run_cases w) as (out & tr & Hcase & _ & ->).
  destruct Hcase; try excluded.
  now rewrite (targets_unique _ _ _ H Ht).
Qed.

(* ------------------------------------------------------------------ *)
(** ** The further properties at work on the scenarios *)

Lemma no_sink_witness :
  no_sink deploy_from_env /\
  writeStepSummary deploy_from_env [("id-a", JStr "Complete")] [] = (Normal tt, []) /\
  summary_writes (run deploy_from_env) = [].
Proof.
  assert (Hno : no_sink deploy_from_env) by reflexivity.
  destruct (no_sink_no_write deploy_from_env Hno) as (H1 & H2).
  split; [exact Hno|]. split; [apply H1|exact H2].
Defined.

Lemma summary_follows_output_witness :
  In (WriteFile "/tmp/summary.md"
        (summary_markdown [("id-a", JStr "Complete"); ("id-b", JStr "Complete")])
        "a") (run deploy_two) /\
  env deploy_two "GITHUB_STEP_SUMMARY" = Some "/tmp/summary.md" /\
  summary_writes (run deploy_two) =
    [("/tmp/summary.md",
      summary_markdown [("id-a", JStr "Complete"); ("id-b", JStr "Complete")])].
Proof.
  assert (Hin : In (WriteFile "/tmp/summary.md"
                      (summary_markdown [("id-a", JStr "Complete");
                                         ("id-b", JStr "Complete")]) "a")
                   (run deploy_two))
    by (vm_compute; decide_In).
  destruct (summary_follows_output deploy_two _ _ _ Hin) as (_ & H2 & H3 & _).
  split; [exact Hin|]. split; [exact H2|exact H3].
Defined.

Lemma failed_write_witness :
  In (WriteFile "/tmp/summary.md"
        (summary_markdown [("id-a", JStr "Complete"); ("id-b", JStr "Complete")])
        "a") (run disk_rejects_error) /\
  failures (run disk_rejects_error) =
    ["EACCES: permission denied, open '/tmp/summary.md'"] /\
  final_output "updates" (run disk_rejects_error) =
    Some (JObj [("id-a", JStr "Complete"); ("id-b", JStr "Complete")]).
Proof.
  assert (Hin : In (WriteFile "/tmp/summary.md"
                      (summary_markdown [("id-a", JStr "Complete");
                                         ("id-b", JStr "Complete")]) "a")
                   (run disk_rejects_error))
    by (vm_compute; decide_In).
  destruct (write_decides_failure disk_rejects_error _ _ _ Hin) as (H1 & _).
  split; [exact Hin|]. split; [exact H1|reflexivity].
Defined.

Lemma sentinel_witness :
  final_output "updates" (run none_without_key) =
    Some (JStr "Nothing to update here") /\
  failures (run none_without_key) <> [].
Proof.
  assert (Hfinal : final_output "updates" (run none_without_key) =
                   Some (JStr "Nothing to update here")) by reflexivity.
  split; [exact Hfinal|].
  exact (sentinel_left_only_by_failure none_without_key Hfinal).
Defined.

Lemma only_updates_witness :
  In (SetOutput "updates" (JObj [])) (run deploy_none) /\
  List.length (outputs "updates" (run deploy_none)) <= 2.
Proof.
  assert (Hin : In (SetOutput "updates" (JObj [])) (run deploy_none))
    by (vm_compute; decide_In).
  destruct (only_updates_is_output deploy_none _ _ Hin) as (_ & _ & H3).
  split; [exact Hin|exact H3].
Defined.

Lemma every_call_witness :
  In (the_client, "DeployStack", JObj [("stack", JStr "b")])
     (remote_calls (run deploy_two)) /\
  dry_run deploy_two = false /\
  supported (inputs deploy_two "kind").
Proof.
  assert (Hin : In (the_client, "DeployStack", JObj [("stack", JStr "b")])
                   (remote_calls (run deploy_two)))
    by (vm_compute; decide_In).
  destruct (every_call_is_for_a_target deploy_two _ _ _ Hin) as (H1 & H2 & _).
  split; [exact Hin|]. split; [exact H1|exact H2].
Defined.

Lemma input_overrides_environment_witness :
  env url_given_twice "KOMODO_URL" = Some "https://other.example.com" /\
  In (the_client, "RunProcedure", JObj [("procedure", JStr "a")])
     (remote_calls (run url_given_twice)) /\
  client_url the_client = inputs url_given_twice "komodo-url".
Proof.
  assert (Hin : In (the_client, "RunProcedure", JObj [("procedure", JStr "a")])
                   (remote_calls (run url_given_twice)))
    by (vm_compute; decide_In).
  destruct (input_overrides_environment url_given_twice _ _ _ Hin) as (H1 & _).
  split; [reflexivity|]. split; [exact Hin|exact H1].
Defined.

Lemma unsupported_kind_witness :
  targets_are deploy_service [JStr "a"; JStr "b"] /\
  dry_run deploy_service = false /\
  connected deploy_service the_client /\
  ~ supported (inputs deploy_service "kind") /\
  run deploy_service =
    [Info "Kind: service"; Info "Targets: a, b";
     launch "service" (JStr "a"); SetFailed "Unsupported kind: service"] /\
  remote_calls (run deploy_service) = [].
Proof.
  assert (Ht : targets_are deploy_service [JStr "a"; JStr "b"])
    by (repeat split; reflexivity).
  assert (Hd : dry_run deploy_service = false) by reflexivity.
  assert (Hc : connected deploy_service the_client) by (repeat split; reflexivity).
  assert (Hk : ~ supported (inputs deploy_service "kind"))
    by (intros [H|H]; discriminate H).
  destruct (unsupported_kind_fails_at_first_target deploy_service _ _ _
              Ht Hd Hc Hk) as (H1 & H2 & _).
  repeat (split; [assumption|]). exact H2.
Defined.

Lemma unparsable_patterns_witness :
  JSON_parse not_json (inputs not_json "patterns") =
    Rejected (ErrorObj "Unexpected token in JSON: immich,umami") /\
  run not_json = [SetFailed "Unexpected token in JSON: immich,umami"].
Proof.
  split; [reflexivity|].
  apply (unparsable_patterns_only_fail not_json
           (ErrorObj "Unexpected token in JSON: immich,umami"));
    reflexivity.
Defined.

Lemma patterns_not_a_list_witness :
  JSON_parse dry_not_a_list (inputs dry_not_a_list "patterns") = Resolved (JObj []) /\
  dry_run dry_not_a_list = true /\
  run dry_not_a_list =
    [SetOutput "updates" (JStr "Nothing to update here"); Info "Kind: stack";
     SetFailed "patterns.join is not a function"].
Proof.
  split; [reflexivity|]. split; [reflexivity|].
  apply (patterns_not_a_list_fail dry_not_a_list (JObj [])); reflexivity.
Defined.

Lemma all_resolved_witness :
  targets_are deploy_two [JStr "a"; JStr "b"] /\
  always_resolves deploy_two /\
  sink_accepts deploy_two /\
  failures (run deploy_two) = [] /\
  List.length (resolved_results (run deploy_two)) = 2.
Proof.
  assert (Ht : targets_are deploy_two [JStr "a"; JStr "b"])
    by (repeat split; reflexivity).
  assert (Hd : dry_run deploy_two = false) by reflexivity.
  assert (Hc : connected deploy_two the_client) by (repeat split; reflexivity).
  assert (Hk : supported (inputs deploy_two "kind")) by (left; reflexivity).
  assert (Hall : always_resolves deploy_two).
  { intros tr c operation payload. cbn. unfold server_ok.
    repeat match goal with
      | |- context [match ?x with _ => _ end] => destruct x
      end; eexists; reflexivity. }
  assert (Hsink : sink_accepts deploy_two) by (intros path data _; reflexivity).
  destruct (all_resolved_run_succeeds deploy_two _ _ Ht Hd Hc Hk Hall Hsink)
    as (H1 & _ & H3 & _).
  repeat (split; [assumption|]). exact H3.
Defined.

Lemma distinct_ids_witness :
  Object_entries
    (updateStatusMap [makeUpdate "id1" "Complete"; makeErr;
                      makeUpdate "id2" "InProgress"]) =
  [("id1", JStr "Complete"); ("id2", JStr "InProgress")].
Proof.
  apply (distinct_ids_keep_record_order
           [makeUpdate "id1" "Complete"; makeErr; makeUpdate "id2" "InProgress"]).
  - cbn. repeat constructor; cbn; intuition discriminate.
  - cbn. intros update [<-|[<-|[]]]; split; (discriminate || reflexivity).
Defined.

Lemma rows_in_record_order_witness :
  summary_markdown
    (updateStatusMap [makeUpdate "id1" "Complete"; makeUpdate "id2" "Complete"]) =
  (summary_header ++
   rows_text [("id1", JStr "Complete"); ("id2", JStr "Complete")])%string.
Proof.
  apply (summary_rows_in_record_order
           [makeUpdate "id1" "Complete"; makeUpdate "id2" "Complete"]).
  - cbn. repeat constructor; cbn; intuition discriminate.
  - cbn. intros update [<-|[<-|[]]]; split; (discriminate || reflexivity).
Defined.

Lemma empty_list_credentials_witness :
  targets_are none_without_key [] /\
  dry_run none_without_key = false /\
  disconnected none_without_key /\
  run none_without_key =
    [SetOutput "updates" (JStr "Nothing to update here");
     Info "Kind: stack"; Info "Targets: "; SetFailed config_error].
Proof.
  assert (Ht : targets_are none_without_key []) by (repeat split; reflexivity).
  assert (Hd : dry_run none_without_key = false) by reflexivity.
  assert (Hn : disconnected none_without_key) by reflexivity.
  repeat (split; [assumption|]).
  exact (empty_list_still_needs_credentials none_without_key Ht Hd Hn).
Defined.

(** A [kind] made of blanks passes the test on required inputs and is
    handed over empty: the run goes on to the loop and fails there. *)
Example blank_kind_reaches_dispatch :
  failures (run blank_kind) = ["Unsupported kind: "] /\
  remote_calls (run blank_kind) = [].
Proof. split; reflexivity. Qed.
